(** * Voice Assistant Pro: the command router, the provider adapters and the
      interaction recorder of [app.py], embedded in Rocq.

    Text is modelled as [string]; a character is a code point below 256
    (Latin-1), on which Python's [str.lower] and [str.strip] are written out.
    Calls that leave the process (HTTP, Wikipedia, Spotify, the browser, the
    clock, S3) are read from a [World] record, each with the failures it can
    raise; [try]/[except] is an explicit combinator on results. *)

From Stdlib Require Import String Ascii List ZArith QArith Bool Arith Lia.
From Stdlib Require Import DecimalString Permutation Sorted.
Import ListNotations.
Local Open Scope nat_scope.
Local Open Scope string_scope.
Set Warnings "-register-all".

(** ** Python string operations used by [process_command] *)

Module PyStr.

(** [str.isspace] on one code point below 256: TAB..CR, FS..US, SPACE,
    NEL (0x85) and NBSP (0xA0). *)
Definition isspace (c : ascii) : bool :=
  let n := N_of_ascii c in
  ((9 <=? n) && (n <=? 13) || (28 <=? n) && (n <=? 32)
   || (n =? 133) || (n =? 160))%N.

(** [str.lower] on one code point below 256: A..Z and the Latin-1 capitals
    0xC0..0xDE (the multiplication sign 0xD7 apart) move up by 32. *)
Definition lower_char (c : ascii) : ascii :=
  let n := N_of_ascii c in
  if ((65 <=? n) && (n <=? 90)
      || (192 <=? n) && (n <=? 222) && negb (n =? 215))%N
  then ascii_of_N (n + 32) else c.

Fixpoint lower (s : string) : string :=
  match s with
  | EmptyString => EmptyString
  | String c t => String (lower_char c) (lower t)
  end.

Fixpoint lstrip (s : string) : string :=
  match s with
  | EmptyString => EmptyString
  | String c t => if isspace c then lstrip t else s
  end.

Definition is_empty (s : string) : bool :=
  match s with EmptyString => true | _ => false end.

Fixpoint rstrip (s : string) : string :=
  match s with
  | EmptyString => EmptyString
  | String c t =>
      let r := rstrip t in
      if is_empty r && isspace c then EmptyString else String c r
  end.

(** [s.strip()] *)
Definition strip (s : string) : string := rstrip (lstrip s).

(** [s.startswith(p)] *)
Fixpoint startswith (p s : string) : bool :=
  match p, s with
  | EmptyString, _ => true
  | String a p', String b s' => Ascii.eqb a b && startswith p' s'
  | String _ _, EmptyString => false
  end.

(** [sub in s] *)
Fixpoint contains (sub s : string) : bool :=
  startswith sub s ||
  match s with
  | EmptyString => false
  | String _ t => contains sub t
  end.

(** The scan of [s.replace(old, new)] for a non-empty [old]: left to right,
    occurrences do not overlap; [skip] counts the characters of the current
    occurrence still to be dropped. *)
Fixpoint replace_scan (old new : string) (skip : nat) (s : string) : string :=
  match s with
  | EmptyString => EmptyString
  | String c t =>
      match skip with
      | S k => replace_scan old new k t
      | O =>
          if startswith old s
          then new ++ replace_scan old new (String.length old - 1) t
          else String c (replace_scan old new 0 t)
      end
  end.

Fixpoint intersperse (new s : string) : string :=
  match s with
  | EmptyString => new
  | String c t => new ++ String c (intersperse new t)
  end.

(** [s.replace(old, new)]; an empty [old] matches before every character
    and at the end. *)
Definition replace (old new s : string) : string :=
  match old with
  | EmptyString => intersperse new s
  | String _ _ => replace_scan old new 0 s
  end.

(** [sep.join(l)] *)
Definition join (sep : string) (l : list string) : string :=
  String.concat sep l.

Definition first_char_nonspace (s : string) : bool :=
  match s with
  | EmptyString => false
  | String c _ => negb (isspace c)
  end.

Fixpoint last_char_nonspace (s : string) : bool :=
  match s with
  | EmptyString => false
  | String c EmptyString => negb (isspace c)
  | String _ t => last_char_nonspace t
  end.

Fixpoint all_space (s : string) : bool :=
  match s with
  | EmptyString => true
  | String c t => isspace c && all_space t
  end.

End PyStr.

Import PyStr.


(** ** Python values, exceptions and the effect monad *)

Module Py.

(** The values the program handles: the argument of [process_command] and
    the documents [json] decodes.  A float stands for the rational it
    denotes. *)
Inductive pyval : Type :=
| PyNone
| PyBool (b : bool)
| PyInt (z : Z)
| PyFloat (q : Q)
| PyStr (s : string)
| PyList (l : list pyval)
| PyDict (d : list (string * pyval)).

(** [bool(v)] *)
Definition truthy (v : pyval) : bool :=
  match v with
  | PyNone => false
  | PyBool b => b
  | PyInt z => negb (z =? 0)%Z
  | PyFloat q => negb (Qeq_bool q 0)
  | PyStr s => negb (is_empty s)
  | PyList l => match l with [] => false | _ => true end
  | PyDict d => match d with [] => false | _ => true end
  end.

(** [isinstance(v, str)] *)
Definition isinstance_str (v : pyval) : bool :=
  match v with PyStr _ => true | _ => false end.

Definition str_value (v : pyval) : string :=
  match v with PyStr s => s | _ => EmptyString end.

(** [v != n] for an integer literal [n]; [True] and [False] compare as 1
    and 0. *)
Definition ne_int (v : pyval) (n : Z) : bool :=
  match v with
  | PyInt z => negb (z =? n)%Z
  | PyFloat q => negb (Qeq_bool q (inject_Z n))
  | PyBool b => negb ((if b then 1 else 0) =? n)%Z
  | _ => true
  end.

(** The classes of [Exception] the program meets.  The first four come from
    the libraries, the next four from the interpreter when a decoded payload
    has an unexpected shape, [OtherException] is any other subclass. *)
Inductive exn : Type :=
| RequestException (detail : string)
| DisambiguationError (options : list string)
| PageError
| ClientError (detail : string)
| AttributeError
| KeyError
| IndexError
| TypeError
| OtherException (detail : string).

Inductive result (A : Type) : Type :=
| Ok (a : A)
| Raise (e : exn).
Arguments Ok {A} a.
Arguments Raise {A} e.

(** State and exceptions: a computation reads a state and yields the new
    state with a value or a raised exception. *)
Definition M (St A : Type) : Type := St -> St * result A.

Definition ret {St A} (a : A) : M St A := fun s => (s, Ok a).

Definition bind {St A B} (m : M St A) (k : A -> M St B) : M St B :=
  fun s =>
    match m s with
    | (s', Ok a) => k a s'
    | (s', Raise e) => (s', Raise e)
    end.

Definition lift {St A} (r : result A) : M St A := fun s => (s, r).

(** [try: body  except ... as e: handler e]; the clauses of the source are
    the cases of [handler]. *)
Definition try_except {St A} (body : M St A) (handler : exn -> M St A)
  : M St A :=
  fun s =>
    match body s with
    | (s', Ok a) => (s', Ok a)
    | (s', Raise e) => handler e s'
    end.

Definition lookup_key {A} (k : string) (d : list (string * A)) : option A :=
  match find (fun kv => String.eqb (fst kv) k) d with
  | Some kv => Some (snd kv)
  | None => None
  end.

(** [v.get(k, default)] *)
Definition dict_get (v : pyval) (k : string) (default : pyval)
  : result pyval :=
  match v with
  | PyDict d =>
      match lookup_key k d with Some x => Ok x | None => Ok default end
  | _ => Raise AttributeError
  end.

(** [v[k]] for a string [k] *)
Definition getitem_str (v : pyval) (k : string) : result pyval :=
  match v with
  | PyDict d =>
      match lookup_key k d with Some x => Ok x | None => Raise KeyError end
  | _ => Raise TypeError
  end.

(** [v[0]] *)
Definition getitem_0 (v : pyval) : result pyval :=
  match v with
  | PyList l => match l with x :: _ => Ok x | [] => Raise IndexError end
  | PyStr s =>
      match s with
      | String c _ => Ok (PyStr (String c EmptyString))
      | EmptyString => Raise IndexError
      end
  | PyDict _ => Raise KeyError
  | _ => Raise TypeError
  end.

End Py.

Import Py.

Declare Scope py_scope.
Delimit Scope py_scope with py.
Notation "x <- m ;; k" := (bind m (fun x => k))
  (at level 61, m at next level, right associativity) : py_scope.
Notation "m ;;; k" := (bind m (fun _ => k))
  (at level 61, right associativity) : py_scope.
Local Open Scope py_scope.

(** ** The object store behind [boto3]'s client *)

Module S3.

Record s3_object : Type := {
  obj_key : string;
  obj_body : string;
  obj_last_modified : Z
}.

(** One entry of [Contents] in a listing. *)
Record summary : Type := {
  Key : string;
  LastModified : Z
}.

(** The objects of the configured bucket, in key order. *)
Definition bucket : Type := list s3_object.

(** A client: which calls fail, and the provider's clock reading that a
    write is stamped with. *)
Record client : Type := {
  put_fault : string -> option exn;
  list_fault : option exn;
  get_fault : string -> option exn;
  server_time : Z
}.

Fixpoint insert_by_key (o : s3_object) (b : bucket) : bucket :=
  match b with
  | [] => [o]
  | x :: b' =>
      if String.ltb (obj_key o) (obj_key x) then o :: b
      else x :: insert_by_key o b'
  end.

Definition remove_key (k : string) (b : bucket) : bucket :=
  filter (fun x => negb (String.eqb (obj_key x) k)) b.

Definition lookup (k : string) (b : bucket) : option s3_object :=
  find (fun x => String.eqb (obj_key x) k) b.

(** [put_object(Bucket, Key, Body)]: creates or overwrites the object. *)
Definition put_object (c : client) (k body : string) : M bucket unit :=
  fun b =>
    match put_fault c k with
    | Some e => (b, Raise e)
    | None =>
        (insert_by_key
           {| obj_key := k; obj_body := body;
              obj_last_modified := server_time c |}
           (remove_key k b),
         Ok tt)
    end.

(** One response holds at most this many keys. *)
Definition MaxKeys : nat := 1000.

Definition summarise (o : s3_object) : summary :=
  {| Key := obj_key o; LastModified := obj_last_modified o |}.

Definition under (prefix : string) (b : bucket) : bucket :=
  filter (fun o => startswith prefix (obj_key o)) b.

(** [list_objects_v2(Bucket, Prefix)]: one page, in key order; the response
    has no [Contents] entry ([None]) when no key matches. *)
Definition list_objects_v2 (c : client) (prefix : string)
  : M bucket (option (list summary)) :=
  fun b =>
    match list_fault c with
    | Some e => (b, Raise e)
    | None =>
        match firstn MaxKeys (under prefix b) with
        | [] => (b, Ok None)
        | page => (b, Ok (Some (map summarise page)))
        end
    end.

(** [get_object(Bucket, Key)['Body'].read().decode('utf-8')] *)
Definition get_object (c : client) (k : string) : M bucket string :=
  fun b =>
    match get_fault c k with
    | Some e => (b, Raise e)
    | None =>
        match lookup k b with
        | Some o => (b, Ok (obj_body o))
        | None => (b, Raise (ClientError "NoSuchKey"))
        end
    end.

End S3.

(** ** Everything outside the process *)

Record http_response : Type := {
  raise_for_status : result unit;
  response_json : result pyval
}.

Record spotify_client : Type := {
  sp_search : string -> result pyval;
  sp_start_playback : list pyval -> result unit
}.

Record World : Type := {
  (* environment *)
  WEATHER_API_KEY : option string;
  S3_BUCKET_NAME : option string;
  (* the services left by initialize_services *)
  s3 : option S3.client;
  sp : option spotify_client;
  (* library calls *)
  requests_get : string -> result http_response;
  wikipedia_summary : string -> result string;
  pwt_search : string -> result unit;
  now_strftime : string -> string;
  json_dumps : pyval -> string;
  json_loads : string -> result pyval;
  (* str(e) and the text of a value inside an f-string *)
  str_exn : exn -> string;
  py_repr : pyval -> string
}.

(** [not v] for the result of [os.getenv]. *)
Definition unset (v : option string) : bool :=
  match v with
  | None => true
  | Some s => is_empty s
  end.

Inductive adapter : Type := Weather | Wikipedia | Spotify | Google.

(** One adapter invocation with its argument. *)
Definition call : Type := (adapter * string)%type.
Definition trace : Type := list call.

(** Entering an adapter is recorded, so that a run shows which adapters it
    reached and with what argument. *)
Definition invoke (a : adapter) (arg : string) : M trace unit :=
  fun tr => ((tr ++ [(a, arg)])%list, Ok tt).

Definition degree : string := String (ascii_of_N 176) EmptyString.

(** ** The adapters, the router and the recorder *)

Section App.

Variable w : World.

(** The text of [v] inside an f-string. *)
Definition format_value (v : pyval) : string :=
  match v with
  | PyStr s => s
  | _ => py_repr w v
  end.

Definition get_weather (city : string) : M trace string :=
  invoke Weather city ;;;
  match WEATHER_API_KEY w with
  | None => ret "Weather API not configured"
  | Some api_key =>
      if is_empty api_key then ret "Weather API not configured"
      else
        let base_url := "https://api.openweathermap.org/data/2.5/weather?" in
        let complete_url :=
          base_url ++ "appid=" ++ api_key ++ "&q=" ++ city ++ "&units=metric" in
        try_except
          (response <- lift (requests_get w complete_url) ;;
           lift (raise_for_status response) ;;;
           data <- lift (response_json response) ;;
           cod <- lift (dict_get data "cod" PyNone) ;;
           if ne_int cod 200 then
             message <-
               lift (dict_get data "message" (PyStr "Unknown error")) ;;
             ret ("Weather error: " ++ format_value message)
           else
             main <- lift (dict_get data "main" (PyDict [])) ;;
             weather_list <-
               lift (dict_get data "weather" (PyList [PyDict []])) ;;
             weather <- lift (getitem_0 weather_list) ;;
             description <-
               lift (dict_get weather "description" (PyStr "N/A")) ;;
             temp <- lift (dict_get main "temp" (PyStr "N/A")) ;;
             feels_like <- lift (dict_get main "feels_like" (PyStr "N/A")) ;;
             humidity <- lift (dict_get main "humidity" (PyStr "N/A")) ;;
             ret ("Weather in " ++ city ++ ": "
                  ++ format_value description ++ ". "
                  ++ "Temperature: " ++ format_value temp ++ degree ++ "C, "
                  ++ "feels like " ++ format_value feels_like ++ degree
                  ++ "C. "
                  ++ "Humidity: " ++ format_value humidity ++ "%"))
          (fun e =>
             match e with
             | RequestException _ =>
                 ret ("Error fetching weather: " ++ str_exn w e)
             | _ => ret ("Error processing weather data: " ++ str_exn w e)
             end)
  end.

(** [wikipedia.set_lang] only records the language; the one call that can
    fail is [wikipedia.summary(query, sentences=2, auto_suggest=False)]. *)
Definition search_wikipedia (query : string) : M trace string :=
  invoke Wikipedia query ;;;
  try_except
    (lift (wikipedia_summary w query))
    (fun e =>
       match e with
       | DisambiguationError options =>
           ret ("Multiple matches. Be more specific. Options: "
                ++ join ", " (firstn 3 options) ++ "...")
       | PageError => ret "No information found. Try different terms."
       | _ => ret ("Wikipedia error: " ++ str_exn w e)
       end).

Definition play_spotify (song_name : string) : M trace string :=
  invoke Spotify song_name ;;;
  match sp w with
  | None => ret "Spotify not connected"
  | Some client =>
      try_except
        (results <- lift (sp_search client song_name) ;;
         tracks <- lift (getitem_str results "tracks") ;;
         items <- lift (getitem_str tracks "items") ;;
         if truthy items then
           track <- lift (getitem_0 items) ;;
           uri <- lift (getitem_str track "uri") ;;
           lift (sp_start_playback client [uri]) ;;;
           name <- lift (getitem_str track "name") ;;
           artists <- lift (getitem_str track "artists") ;;
           artist <- lift (getitem_0 artists) ;;
           artist_name <- lift (getitem_str artist "name") ;;
           ret ("Now playing: " ++ format_value name ++ " by "
                ++ format_value artist_name)
         else ret "Song not found.")
        (fun e => ret ("Spotify error: " ++ str_exn w e))
  end.

Definition search_google (query : string) : M trace string :=
  invoke Google query ;;;
  try_except
    (lift (pwt_search w query) ;;;
     ret ("Searching Google for: " ++ query))
    (fun e => ret ("Search error: " ++ str_exn w e)).

(** [x or default] on strings *)
Definition or_else (x default : string) : string :=
  if is_empty x then default else x.

Definition process_command (command : pyval) : M trace string :=
  if negb (truthy command) || negb (isinstance_str command) then
    ret "Please provide a valid command"
  else
    let command := strip (lower (str_value command)) in
    if is_empty command then
      ret "I didn't catch that. Please try again."
    else if existsb (fun word => contains word command) ["hello"; "hi"; "hey"]
    then ret "Hello! How can I help?"
    else if contains "time" command then
      ret ("The time is " ++ now_strftime w "%H:%M")
    else if contains "date" command then
      ret ("Today is " ++ now_strftime w "%B %d, %Y")
    else if contains "weather" command then
      let city := strip (replace "in" "" (replace "weather" "" command)) in
      get_weather (or_else city "New York")
    else if contains "wikipedia" command || contains "wiki" command then
      let query := strip (replace "wiki" "" (replace "wikipedia" "" command)) in
      if is_empty query then ret "Specify a search term"
      else search_wikipedia query
    else if contains "play" command
            && (contains "song" command || contains "music" command) then
      let song :=
        strip (replace "music" ""
                 (replace "song" "" (replace "play" "" command))) in
      if is_empty song then ret "Specify a song" else play_spotify song
    else if contains "search" command && contains "google" command then
      let query := strip (replace "google" "" (replace "search" "" command)) in
      if is_empty query then ret "Specify a search" else search_google query
    else search_google command.

(** [sorted(l, key=lambda x: x['LastModified'], reverse=True)]: stable, so
    entries with equal stamps keep the order of the listing. *)
Fixpoint insert_desc (x : S3.summary) (l : list S3.summary)
  : list S3.summary :=
  match l with
  | [] => [x]
  | y :: l' =>
      if (S3.LastModified x <? S3.LastModified y)%Z
      then y :: insert_desc x l'
      else x :: l
  end.

Definition sorted_desc (l : list S3.summary) : list S3.summary :=
  fold_right insert_desc [] l.

Definition save_to_s3 (user_input response : string) : M S3.bucket bool :=
  match s3 w with
  | None => ret false
  | Some client =>
      if unset (S3_BUCKET_NAME w) then ret false
      else
        let timestamp := now_strftime w "%Y%m%d_%H%M%S" in
        let filename := "interactions/" ++ timestamp ++ ".json" in
        let interaction :=
          PyDict [("timestamp", PyStr timestamp);
                  ("input", PyStr user_input);
                  ("response", PyStr response)] in
        try_except
          (S3.put_object client filename (json_dumps w interaction) ;;;
           ret true)
          (fun _ => ret false)
  end.

(** The body of the [for] loop of [load_history]: an object that cannot be
    fetched or decoded is skipped. *)
Fixpoint load_each (client : S3.client) (objs : list S3.summary)
    (history : list pyval) : M S3.bucket (list pyval) :=
  match objs with
  | [] => ret history
  | obj :: rest =>
      history' <-
        try_except
          (body <- S3.get_object client (S3.Key obj) ;;
           v <- lift (json_loads w body) ;;
           ret (history ++ [v])%list)
          (fun _ => ret history) ;;
      load_each client rest history'
  end.

Definition load_history (limit : nat) : M S3.bucket (list pyval) :=
  match s3 w with
  | None => ret []
  | Some client =>
      if unset (S3_BUCKET_NAME w) then ret []
      else
        try_except
          (objects <- S3.list_objects_v2 client "interactions/" ;;
           match objects with
           | Some contents =>
               load_each client (firstn limit (sorted_desc contents)) []
           | None => ret []
           end)
          (fun _ => ret [])
  end.

(** *** The router as the specification words it: an ordered table of
    (condition, handler) pairs, scanned top-down. *)

Record rule : Type := {
  rule_name : string;
  matches : string -> bool;
  handle : string -> M trace string
}.

Definition rule_table : list rule :=
  [ {| rule_name := "greeting";
       matches := fun c =>
         contains "hello" c || contains "hi" c || contains "hey" c;
       handle := fun _ => ret "Hello! How can I help?" |};
    {| rule_name := "time";
       matches := contains "time";
       handle := fun _ => ret ("The time is " ++ now_strftime w "%H:%M") |};
    {| rule_name := "date";
       matches := contains "date";
       handle := fun _ => ret ("Today is " ++ now_strftime w "%B %d, %Y") |};
    {| rule_name := "weather";
       matches := contains "weather";
       handle := fun c =>
         get_weather
           (or_else (strip (replace "in" "" (replace "weather" "" c)))
                    "New York") |};
    {| rule_name := "wikipedia";
       matches := fun c => contains "wikipedia" c || contains "wiki" c;
       handle := fun c =>
         let query := strip (replace "wiki" "" (replace "wikipedia" "" c)) in
         if is_empty query then ret "Specify a search term"
         else search_wikipedia query |};
    {| rule_name := "play-music";
       matches := fun c =>
         contains "play" c && (contains "song" c || contains "music" c);
       handle := fun c =>
         let song :=
           strip (replace "music" ""
                    (replace "song" "" (replace "play" "" c))) in
         if is_empty song then ret "Specify a song" else play_spotify song |};
    {| rule_name := "search-google";
       matches := fun c => contains "search" c && contains "google" c;
       handle := fun c =>
         let query := strip (replace "google" "" (replace "search" "" c)) in
         if is_empty query then ret "Specify a search"
         else search_google query |} ].

(** First match wins; with no match the whole command is a web search. *)
Definition route_by_table (c : string) : M trace string :=
  match find (fun r => matches r c) rule_table with
  | Some r => handle r c
  | None => search_google c
  end.

End App.

(** ** A concrete world and concrete buckets, to run the definitions on *)

Module Demo.

Definition quote : string := String (ascii_of_N 34) EmptyString.

(** [json.dumps] of a three-field document of strings that need no
    escaping; this is the shape [save_to_s3] writes. *)
Definition dumps (v : pyval) : string :=
  match v with
  | PyDict [(k1, PyStr v1); (k2, PyStr v2); (k3, PyStr v3)] =>
      "{" ++ quote ++ k1 ++ quote ++ ": " ++ quote ++ v1 ++ quote ++ ", "
      ++ quote ++ k2 ++ quote ++ ": " ++ quote ++ v2 ++ quote ++ ", "
      ++ quote ++ k3 ++ quote ++ ": " ++ quote ++ v3 ++ quote ++ "}"
  | _ => "null"
  end.

Fixpoint expect (p s : string) : option string :=
  match p, s with
  | EmptyString, _ => Some s
  | String a p', String b s' => if Ascii.eqb a b then expect p' s' else None
  | String _ _, EmptyString => None
  end.

Fixpoint until_quote (s : string) : option (string * string) :=
  match s with
  | EmptyString => None
  | String c t =>
      if Ascii.eqb c (ascii_of_N 34) then Some (EmptyString, t)
      else match until_quote t with
           | Some (x, rest) => Some (String c x, rest)
           | None => None
           end
  end.

Definition field (name s : string) : option (string * string) :=
  match expect (quote ++ name ++ quote ++ ": " ++ quote) s with
  | Some s' => until_quote s'
  | None => None
  end.

(** [json.loads] on the documents [dumps] prints; anything else is a
    decoding error. *)
Definition loads (s : string) : result pyval :=
  let bad := Raise (OtherException "JSONDecodeError") in
  match expect "{" s with
  | Some s1 =>
      match field "timestamp" s1 with
      | Some (ts, s2) =>
          match expect ", " s2 with
          | Some s3 =>
              match field "input" s3 with
              | Some (i, s4) =>
                  match expect ", " s4 with
                  | Some s5 =>
                      match field "response" s5 with
                      | Some (r, "}") =>
                          Ok (PyDict [("timestamp", PyStr ts);
                                      ("input", PyStr i);
                                      ("response", PyStr r)])
                      | _ => bad
                      end
                  | None => bad
                  end
              | None => bad
              end
          | None => bad
          end
      | None => bad
      end
  | None => bad
  end.

Definition strftime (fmt : string) : string :=
  if String.eqb fmt "%H:%M" then "09:30"
  else if String.eqb fmt "%B %d, %Y" then "January 01, 2024"
  else "20240101_093000".

(** A client none of whose calls fail, writing at provider time [t]. *)
Definition client (t : Z) : S3.client :=
  {| S3.put_fault := fun _ => None;
     S3.list_fault := None;
     S3.get_fault := fun _ => None;
     S3.server_time := t |}.

(** No weather key and no Spotify session; Wikipedia finds the topic
    ambiguous and reports four candidates; storage as given. *)
Definition world (storage : option S3.client) : World :=
  {| WEATHER_API_KEY := None;
     S3_BUCKET_NAME := Some "assistant-log";
     s3 := storage;
     sp := None;
     requests_get := fun _ => Raise (RequestException "timed out");
     wikipedia_summary := fun _ =>
       Raise (DisambiguationError
                ["Mercury (planet)"; "Mercury (element)";
                 "Mercury (mythology)"; "Freddie Mercury"]);
     pwt_search := fun _ => Ok tt;
     now_strftime := strftime;
     json_dumps := dumps;
     json_loads := loads;
     str_exn := fun _ => "error";
     py_repr := fun _ => "?" |}.

Definition interaction (ts i r : string) : pyval :=
  PyDict [("timestamp", PyStr ts); ("input", PyStr i); ("response", PyStr r)].

Definition two_digits (n : nat) : string :=
  String (ascii_of_nat (48 + n / 10))
    (String (ascii_of_nat (48 + n mod 10)) EmptyString).

(** Provider time in seconds: midnight of 2024-01-01, and 09:30:00 of that
    day, the second [strftime] reads on the local clock. *)
Definition midnight : Z := 1704067200.
Definition half_past_nine : Z := 1704101400.

(** The [i]-th interaction of an earlier session, written [i] seconds after
    midnight and stamped by the provider in that second. *)
Definition earlier_timestamp (i : nat) : string :=
  "20240101_00" ++ two_digits (i / 60) ++ two_digits (i mod 60).

Definition earlier (i : nat) : S3.s3_object :=
  {| S3.obj_key := "interactions/" ++ earlier_timestamp i ++ ".json";
     S3.obj_body :=
       dumps (interaction (earlier_timestamp i) "time" "The time is 00:00");
     S3.obj_last_modified := midnight + Z.of_nat i |}.

(** The interaction written at 09:29:59 on the local clock; its request
    reached the provider in the second 09:30:00. *)
Definition previous : S3.s3_object :=
  {| S3.obj_key := "interactions/20240101_092959.json";
     S3.obj_body :=
       dumps (interaction "20240101_092959" "time" "The time is 09:29");
     S3.obj_last_modified := half_past_nine |}.

(** A bucket holding one interaction of an earlier session. *)
Definition small_bucket : S3.bucket := [earlier 0].

(** A bucket holding the interaction written a second ago. *)
Definition busy_bucket : S3.bucket := [previous].

(** A bucket holding a full page of earlier interactions. *)
Definition full_bucket : S3.bucket := map earlier (seq 0 S3.MaxKeys).

(** The text of an integer inside an f-string; other values are not
    printed by this world. *)
Definition repr (v : pyval) : string :=
  match v with
  | PyInt z => NilZero.string_of_int (Z.to_int z)
  | _ => "?"
  end.

Definition clear_sky : pyval :=
  PyDict [("cod", PyInt 200);
          ("weather", PyList [PyDict [("description", PyStr "clear sky")]]);
          ("main", PyDict [("temp", PyInt 21); ("feels_like", PyInt 20);
                           ("humidity", PyInt 60)])].

Definition imagine : pyval :=
  PyDict [("tracks",
           PyDict [("items",
                    PyList [PyDict [("uri", PyStr "spotify:track:1");
                                    ("name", PyStr "Imagine");
                                    ("artists",
                                     PyList [PyDict [("name",
                                                      PyStr "John Lennon")]])
                                   ]])])].

(** A world with a weather key and a Spotify session, in which the weather
    provider answers every request with [payload]. *)
Definition connected (payload : result pyval) : World :=
  {| WEATHER_API_KEY := Some "k";
     S3_BUCKET_NAME := None;
     s3 := None;
     sp := Some {| sp_search := fun _ => Ok imagine;
                   sp_start_playback := fun _ =>
                     Raise (OtherException "No active device") |};
     requests_get := fun _ =>
       Ok {| raise_for_status := Ok tt; response_json := payload |};
     wikipedia_summary := fun _ => Raise PageError;
     pwt_search := fun _ => Ok tt;
     now_strftime := strftime;
     json_dumps := dumps;
     json_loads := loads;
     str_exn := fun e =>
       match e with
       | OtherException d | RequestException d | ClientError d => d
       | _ => "error"
       end;
     py_repr := repr |}.

End Demo.

(** ** Start-up, speech output and the handlers of [main] *)

Record tts_engine : Type := {
  say : string -> result unit;
  runAndWait : result unit
}.







(** An event of the page: a message box, or a call on the speech engine
    that returned. *)
Inductive ui_event : Type :=
| Warning (text : string)
| Error (text : string)
| Success (text : string)
| Say (text : string)
| RunAndWait.

Definition emit (e : ui_event) : M (list ui_event) unit :=
  fun u => ((u ++ [e])%list, Ok tt).

(** One run of a handler works on the page, the adapters, the bucket and
    the session's history; [rerun] is set by [st.rerun()]. *)
Record session : Type := {
  ui : list ui_event;
  calls : trace;
  store : S3.bucket;
  history : list pyval;
  rerun : bool
}.

Definition on_ui {A} (m : M (list ui_event) A) : M session A :=
  fun s =>
    let '(u, r) := m (ui s) in
    ({| ui := u; calls := calls s; store := store s;
        history := history s; rerun := rerun s |}, r).

Definition on_calls {A} (m : M trace A) : M session A :=
  fun s =>
    let '(c, r) := m (calls s) in
    ({| ui := ui s; calls := c; store := store s;
        history := history s; rerun := rerun s |}, r).

Definition on_store {A} (m : M S3.bucket A) : M session A :=
  fun s =>
    let '(b, r) := m (store s) in
    ({| ui := ui s; calls := calls s; store := b;
        history := history s; rerun := rerun s |}, r).

Definition set_history (h : list pyval) : M session unit :=
  fun s =>
    ({| ui := ui s; calls := calls s; store := store s;
        history := h; rerun := rerun s |}, Ok tt).

Definition st_rerun : M session unit :=
  fun s =>
    ({| ui := ui s; calls := calls s; store := store s;
        history := history s; rerun := true |}, Ok tt).

Section Main.

Variable w : World.


Variable engine : option tts_engine.

Definition speak (text : string) : M (list ui_event) unit :=
  match engine with
  | None => emit (Warning "Text-to-speech engine not available")
  | Some e =>
      try_except
        (lift (say e text) ;;;
         emit (Say text) ;;;
         lift (runAndWait e) ;;;
         emit RunAndWait)
        (fun x => emit (Error ("Error in text-to-speech: " ++ str_exn w x)))
  end.

(** The body shared by the voice button and the text box: [user_input] is
    the recognised or typed text, or [None]. *)
Definition handle_input (user_input : pyval) : M session unit :=
  if truthy user_input then
    response <- on_calls (process_command w user_input) ;;
    on_ui (emit (Success ("Assistant: " ++ response))) ;;;
    on_ui (speak response) ;;;
    saved <- on_store (save_to_s3 w (str_value user_input) response) ;;
    if (saved : bool) then
      h <- on_store (load_history w 5) ;;
      set_history h ;;;
      st_rerun
    else ret tt
  else ret tt.

(** The "Check Weather" and "Web Search" quick actions. *)
Definition check_weather (city : string) : M session unit :=
  response <- on_calls (process_command w (PyStr ("weather " ++ city))) ;;
  on_ui (emit (Success response)) ;;;
  on_ui (speak response).

Definition web_search (search : string) : M session unit :=
  response <- on_calls (process_command w (PyStr ("search " ++ search))) ;;
  on_ui (emit (Success response)) ;;;
  on_ui (speak response).

End Main.

(** [x] is stamped at least as late as [y]. *)
Definition not_newer (x y : S3.summary) : Prop :=
  (S3.LastModified y <= S3.LastModified x)%Z.

(** What one listed object contributes to the history: its decoded body,
    or nothing when it cannot be fetched or decoded. *)
Definition readable (w : World) (c : S3.client) (b : S3.bucket)
    (s : S3.summary) : list pyval :=
  match S3.get_fault c (S3.Key s) with
  | Some _ => []
  | None =>
      match S3.lookup (S3.Key s) b with
      | None => []
      | Some o =>
          match json_loads w (S3.obj_body o) with
          | Ok v => [v]
          | Raise _ => []
          end
      end
  end.

(** The request [get_weather] sends for [city]. *)
Definition weather_url (api_key city : string) : string :=
  "https://api.openweathermap.org/data/2.5/weather?"
  ++ "appid=" ++ api_key ++ "&q=" ++ city ++ "&units=metric".

(** A speech engine that works, and an empty session over a bucket. *)
Definition working_engine : tts_engine :=
  {| say := fun _ => Ok tt; runAndWait := Ok tt |}.

Definition fresh_session (b : S3.bucket) : session :=
  {| ui := []; calls := []; store := b; history := []; rerun := false |}.

(** * Properties *)

(** ** Strings *)

Example strip_ex : strip "  weather in  " = "weather in".
Proof. reflexivity. Qed.

Example lower_ex : lower "Weather In PARIS" = "weather in paris".
Proof. reflexivity. Qed.

Example replace_ex :
  replace "in" "" " in berlin" = "  berl"
  /\ replace "aa" "b" "aaaaa" = "bba"
  /\ replace "" "-" "abc" = "-a-b-c-"
  /\ replace "in" "" "iinn" = "in".
Proof. repeat split. Qed.

Example contains_ex : contains "hi" "this" = true /\ contains "" "" = true.
Proof. split; reflexivity. Qed.

Lemma is_empty_true s : is_empty s = true <-> s = "".
Proof. destruct s; simpl; split; congruence. Qed.

Lemma isspace_lower_char c : isspace c = true -> lower_char c = c.
Proof.
  destruct c as [b0 b1 b2 b3 b4 b5 b6 b7].
  destruct b0, b1, b2, b3, b4, b5, b6, b7; vm_compute; congruence.
Qed.

Lemma all_space_lower s : all_space s = true -> lower s = s.
Proof.
  induction s as [|c t IH]; simpl; intros H; [reflexivity|].
  apply andb_true_iff in H as [Hc Ht].
  now rewrite isspace_lower_char, IH.
Qed.

Lemma all_space_lstrip s : all_space s = true -> lstrip s = "".
Proof.
  induction s as [|c t IH]; simpl; intros H; [reflexivity|].
  apply andb_true_iff in H as [Hc Ht].
  rewrite Hc. auto.
Qed.

Lemma all_space_normalises s : all_space s = true -> strip (lower s) = "".
Proof.
  intros H. unfold strip.
  now rewrite all_space_lower, all_space_lstrip.
Qed.

Lemma length_lower s : String.length (lower s) = String.length s.
Proof. induction s; simpl; congruence. Qed.

Lemma length_lstrip s : String.length (lstrip s) <= String.length s.
Proof.
  induction s as [|c t IH]; simpl; [lia|].
  destruct (isspace c); simpl; lia.
Qed.

Lemma length_rstrip s : String.length (rstrip s) <= String.length s.
Proof.
  induction s as [|c t IH]; simpl; [lia|].
  destruct (is_empty (rstrip t) && isspace c); simpl; lia.
Qed.

Lemma length_strip s : String.length (strip s) <= String.length s.
Proof.
  unfold strip. pose proof (length_rstrip (lstrip s)).
  pose proof (length_lstrip s). lia.
Qed.

(** *** Containment survives, and is not created by, [strip] *)

Lemma startswith_empty_r sub : startswith sub "" = true -> sub = "".
Proof. destruct sub; simpl; congruence. Qed.

Lemma contains_empty_l s : contains "" s = true.
Proof. destruct s; reflexivity. Qed.

Lemma contains_nonempty sub s : contains sub s = true -> sub <> "" -> s <> "".
Proof.
  intros H Hs ->. simpl in H. rewrite orb_false_r in H.
  now apply startswith_empty_r in H.
Qed.

Lemma contains_lstrip sub s :
  first_char_nonspace sub = true ->
  contains sub s = true -> contains sub (lstrip s) = true.
Proof.
  intros Hf. induction s as [|c t IH]; intros H; [exact H|].
  cbn [lstrip]. destruct (isspace c) eqn:Hc; [|exact H].
  apply IH. cbn [contains] in H. apply orb_true_iff in H as [H|H]; [|exact H].
  destruct sub as [|a p]; [discriminate|].
  cbn in H, Hf. apply andb_true_iff in H as [Ha _].
  apply Ascii.eqb_eq in Ha. subst a. rewrite Hc in Hf. discriminate.
Qed.

Lemma lstrip_contains sub s :
  contains sub (lstrip s) = true -> contains sub s = true.
Proof.
  induction s as [|c t IH]; intros H; [exact H|].
  cbn [lstrip] in H. destruct (isspace c); [|exact H].
  cbn [contains]. rewrite (IH H). apply orb_true_r.
Qed.

Lemma startswith_rstrip sub s :
  last_char_nonspace sub = true ->
  startswith sub s = true -> startswith sub (rstrip s) = true.
Proof.
  revert sub. induction s as [|c t IH]; intros sub Hl H.
  - apply startswith_empty_r in H. now subst.
  - destruct sub as [|a p]; [discriminate|].
    cbn [startswith] in H. apply andb_true_iff in H as [Ha Hp].
    cbn [rstrip]. destruct p as [|b p'].
    + cbn in Hl. apply Ascii.eqb_eq in Ha. subst a.
      apply negb_true_iff in Hl. rewrite Hl, andb_false_r.
      cbn. now rewrite Ascii.eqb_refl.
    + assert (Hp' : startswith (String b p') (rstrip t) = true)
        by (apply IH; [exact Hl | exact Hp]).
      destruct (rstrip t) as [|d r] eqn:Hr; [discriminate|].
      cbn [is_empty andb].
      change (Ascii.eqb a c && startswith (String b p') (String d r) = true).
      now rewrite Ha, Hp'.
Qed.

Lemma rstrip_startswith sub s :
  startswith sub (rstrip s) = true -> startswith sub s = true.
Proof.
  revert sub. induction s as [|c t IH]; intros sub H; [exact H|].
  cbn [rstrip] in H.
  destruct (is_empty (rstrip t) && isspace c).
  - apply startswith_empty_r in H. now subst.
  - destruct sub as [|a p]; [reflexivity|].
    cbn [startswith] in *. apply andb_true_iff in H as [Ha Hp].
    now rewrite Ha, (IH _ Hp).
Qed.

Lemma contains_rstrip sub s :
  last_char_nonspace sub = true ->
  contains sub s = true -> contains sub (rstrip s) = true.
Proof.
  intros Hl. induction s as [|c t IH]; intros H.
  - cbn in H. rewrite orb_false_r in H.
    apply startswith_empty_r in H. now subst.
  - cbn [contains] in H. apply orb_true_iff in H as [H|H].
    + apply (startswith_rstrip _ _ Hl) in H.
      destruct (rstrip (String c t)); cbn [contains]; now rewrite H.
    + specialize (IH H). cbn [rstrip].
      destruct (rstrip t) as [|d r] eqn:Hr.
      * exfalso. cbn in IH. rewrite orb_false_r in IH.
        apply startswith_empty_r in IH. now subst.
      * cbn [is_empty andb contains]. cbn [contains] in IH.
        rewrite IH. apply orb_true_r.
Qed.

Lemma rstrip_contains sub s :
  contains sub (rstrip s) = true -> contains sub s = true.
Proof.
  induction s as [|c t IH]; intros H; [exact H|].
  assert (Hs : rstrip (String c t) = "" \/
               rstrip (String c t) = String c (rstrip t)).
  { cbn [rstrip]. destruct (is_empty (rstrip t) && isspace c); auto. }
  destruct Hs as [Hs|Hs].
  - rewrite Hs in H. cbn in H. rewrite orb_false_r in H.
    apply startswith_empty_r in H. subst. apply contains_empty_l.
  - cbn [contains]. rewrite Hs in H. cbn [contains] in H.
    apply orb_true_iff in H as [H|H].
    + rewrite <- Hs in H. now rewrite (rstrip_startswith _ _ H).
    + rewrite (IH H). apply orb_true_r.
Qed.

(** A keyword that neither starts nor ends with white space occurs in the
    stripped text exactly when it occurs in the text. *)
Lemma contains_strip sub s :
  first_char_nonspace sub = true -> last_char_nonspace sub = true ->
  contains sub (strip s) = contains sub s.
Proof.
  intros Hf Hl. unfold strip.
  destruct (contains sub s) eqn:H.
  - now apply contains_rstrip, contains_lstrip.
  - destruct (contains sub (rstrip (lstrip s))) eqn:H'; [|reflexivity].
    apply rstrip_contains, lstrip_contains in H'. congruence.
Qed.

Lemma lstrip_nonspace s : first_char_nonspace s = true -> lstrip s = s.
Proof.
  destruct s as [|c t]; [reflexivity|].
  cbn [first_char_nonspace lstrip]. intros H.
  apply negb_true_iff in H. now rewrite H.
Qed.

Lemma rstrip_app p s : rstrip s <> "" -> rstrip (p ++ s) = p ++ rstrip s.
Proof.
  intros Hs. induction p as [|c p IH]; [reflexivity|].
  cbn [append rstrip]. rewrite IH.
  destruct (p ++ rstrip s) as [|d r] eqn:E; [|reflexivity].
  destruct p; [cbn in E; congruence | discriminate].
Qed.

(** *** Deleting a substring with [replace] *)

Lemma length_replace_scan old k s :
  String.length (replace_scan old "" k s) <= String.length s.
Proof.
  revert k. induction s as [|c t IH]; intros k; cbn [replace_scan]; [lia|].
  destruct k as [|k].
  - destruct (startswith old (String c t)); cbn [append String.length].
    + specialize (IH (String.length old - 1)). lia.
    + specialize (IH 0). lia.
  - specialize (IH k). cbn [String.length]. lia.
Qed.

Lemma replace_removes old s :
  old <> "" -> contains old s = true ->
  String.length (replace old "" s) < String.length s.
Proof.
  intros Ho. destruct old as [|a p]; [congruence|]. cbn [replace].
  induction s as [|c t IH]; intros H.
  - discriminate.
  - cbn [replace_scan].
    destruct (startswith (String a p) (String c t)) eqn:Hp.
    + cbn [append].
      change (String.length (String c t)) with (S (String.length t)).
      apply Nat.lt_succ_r, length_replace_scan.
    + cbn [contains] in H. rewrite Hp in H. cbn [orb] in H.
      specialize (IH H). cbn [String.length]. lia.
Qed.

Lemma replace_absent old s :
  contains old s = false -> replace old "" s = s.
Proof.
  destruct old as [|a p].
  - now rewrite contains_empty_l.
  - cbn [replace]. induction s as [|c t IH]; intros H; [reflexivity|].
    cbn [contains] in H. apply orb_false_iff in H as [Hp Ht].
    cbn [replace_scan]. rewrite Hp. now rewrite (IH Ht).
Qed.

Lemma length_replace old s :
  String.length (replace old "" s) <= String.length s.
Proof.
  destruct (contains old s) eqn:H.
  - destruct old as [|a p].
    + cbn [replace]. clear H.
      induction s as [|c t IH]; [cbn; lia|].
      change (S (String.length (intersperse "" t)) <= S (String.length t)).
      lia.
    + pose proof (replace_removes (String a p) s). 
      assert (String a p <> "") by discriminate. intuition lia.
  - rewrite replace_absent by exact H. lia.
Qed.

(** The city argument derived from ["weather in " ++ c] once normalised:
    both keywords and the blanks around them go, and what is left of [c]
    has lost every occurrence of ["weather"] and ["in"]. *)
Lemma weather_in_extract e :
  strip (replace "in" "" (replace "weather" "" ("weather in " ++ e)))
  = strip (replace "in" "" (replace "weather" "" e)).
Proof. reflexivity. Qed.

(** ** The definitions at work *)

Example loads_dumps :
  Demo.loads (Demo.dumps (Demo.interaction "20240101_093000" "date" "Monday"))
  = Ok (Demo.interaction "20240101_093000" "date" "Monday").
Proof. reflexivity. Qed.

Example weather_report :
  process_command (Demo.connected (Ok Demo.clear_sky))
    (PyStr "  Weather in Oslo ") []
  = ([(Weather, "oslo")],
     Ok ("Weather in oslo: clear sky. Temperature: 21" ++ degree
         ++ "C, feels like 20" ++ degree ++ "C. Humidity: 60%")).
Proof. reflexivity. Qed.

(** A payload that is a list has no [get]: the [AttributeError] is caught by
    the second clause. *)
Example weather_malformed_payload :
  process_command (Demo.connected (Ok (PyList []))) (PyStr "weather") []
  = ([(Weather, "New York")], Ok "Error processing weather data: error").
Proof. reflexivity. Qed.

Example weather_provider_error :
  process_command
    (Demo.connected (Ok (PyDict [("cod", PyStr "404");
                                 ("message", PyStr "city not found")])))
    (PyStr "weather atlantis") []
  = ([(Weather, "atlantis")], Ok "Weather error: city not found").
Proof. reflexivity. Qed.

Example weather_timeout :
  process_command
    (Demo.connected (Raise (RequestException "Read timed out.")))
    (PyStr "weather") []
  = ([(Weather, "New York")], Ok "Error fetching weather: Read timed out.").
Proof. reflexivity. Qed.

Example spotify_no_device :
  process_command (Demo.connected (Ok PyNone)) (PyStr "Play song Imagine") []
  = ([(Spotify, "imagine")], Ok "Spotify error: No active device").
Proof. reflexivity. Qed.

Example time_and_default :
  process_command (Demo.world None) (PyStr "what TIME is it") []
  = ([], Ok "The time is 09:30")
  /\ process_command (Demo.world None) (PyStr "rocq prover") []
     = ([(Google, "rocq prover")], Ok "Searching Google for: rocq prover").
Proof. split; reflexivity. Qed.

Example sorted_desc_is_stable :
  map S3.Key
    (sorted_desc [ {| S3.Key := "a"; S3.LastModified := 1 |};
                   {| S3.Key := "b"; S3.LastModified := 2 |};
                   {| S3.Key := "c"; S3.LastModified := 1 |};
                   {| S3.Key := "d"; S3.LastModified := 2 |} ])
  = ["b"; "d"; "a"; "c"].
Proof. reflexivity. Qed.

(** ** Scanning an ordered table *)

Section FirstMatch.

Context {A : Type} (f : A -> bool).

Lemma find_first (l : list A) i x :
  nth_error l i = Some x -> f x = true ->
  (forall k y, k < i -> nth_error l k = Some y -> f y = false) ->
  find f l = Some x.
Proof.
  revert i. induction l as [|a l IH]; intros [|i] Hn Hx Hlt;
    try discriminate; cbn in *.
  - injection Hn as ->. now rewrite Hx.
  - rewrite (Hlt 0 a) by (auto; lia).
    apply (IH i); auto. intros k y Hk. apply (Hlt (S k)). lia.
Qed.

Lemma find_no_match (l : list A) :
  (forall x, In x l -> f x = false) -> find f l = None.
Proof.
  induction l as [|a l IH]; intros H; [reflexivity|]. cbn.
  rewrite (H a) by now left. apply IH. intros x Hx. apply H. now right.
Qed.

Lemma find_at_or_before (l : list A) i x :
  nth_error l i = Some x -> f x = true ->
  exists k y, k <= i /\ nth_error l k = Some y /\ f y = true
              /\ find f l = Some y.
Proof.
  revert i. induction l as [|a l IH]; intros [|i] Hn Hx;
    try discriminate; cbn in *.
  - injection Hn as ->. exists 0, x. rewrite Hx. repeat split; auto.
  - destruct (f a) eqn:Ha.
    + exists 0, a. repeat split; auto. lia.
    + destruct (IH i Hn Hx) as (k & y & Hk & Hy & Hfy & Hfind).
      exists (S k), y. repeat split; auto. lia.
Qed.

End FirstMatch.

(** ** The router *)

Section Router.

Variable w : World.

Lemma process_command_invalid v :
  isinstance_str v = false \/ truthy v = false ->
  process_command w v = ret "Please provide a valid command".
Proof.
  intros [H|H]; unfold process_command; rewrite H; cbn [negb orb].
  - now rewrite orb_true_r.
  - reflexivity.
Qed.

Lemma process_command_blank s :
  s <> "" -> strip (lower s) = "" ->
  process_command w (PyStr s) = ret "I didn't catch that. Please try again.".
Proof.
  intros Hs Hc. unfold process_command.
  cbn [truthy isinstance_str str_value]. rewrite Hc.
  destruct s; [congruence | reflexivity].
Qed.

(** On a command that is not blank, the [if]/[elif] chain of the source and
    the top-down scan of the table are the same function. *)
Lemma process_command_routes s :
  s <> "" -> strip (lower s) <> "" ->
  process_command w (PyStr s) = route_by_table w (strip (lower s)).
Proof.
  intros Hs Hc. unfold process_command.
  cbn [truthy isinstance_str str_value].
  destruct s as [|a t]; [congruence|]. cbn [is_empty negb orb].
  set (c := strip (lower (String a t))) in *.
  destruct (is_empty c) eqn:He; [apply is_empty_true in He; congruence|].
  unfold route_by_table, rule_table.
  cbn [find matches handle existsb].
  repeat match goal with
         | |- context [contains ?k c] =>
             destruct (contains k c) eqn:?;
             cbn [orb andb find matches handle existsb]; try reflexivity
         end.
Qed.

Lemma get_weather_invoked city tr :
  exists r, get_weather w city tr = ((tr ++ [(Weather, city)])%list, Ok r).
Proof.
  unfold get_weather, bind, invoke, ret.
  destruct (WEATHER_API_KEY w) as [k|]; [|eauto].
  destruct (is_empty k); [eauto|].
  unfold try_except, lift.
  destruct (requests_get w _) as [resp|e]; [|destruct e; eauto].
  destruct (raise_for_status resp) as [u|e]; [|destruct e; eauto].
  destruct (response_json resp) as [data|e]; [|destruct e; eauto].
  destruct (dict_get data "cod" PyNone) as [cod|e]; [|destruct e; eauto].
  destruct (ne_int cod 200).
  - destruct (dict_get data "message" _) as [m|e]; [|destruct e]; eauto.
  - destruct (dict_get data "main" _) as [m|e]; [|destruct e; eauto].
    destruct (dict_get data "weather" _) as [wl|e]; [|destruct e; eauto].
    destruct (getitem_0 wl) as [we|e]; [|destruct e; eauto].
    destruct (dict_get we "description" _) as [d|e]; [|destruct e; eauto].
    destruct (dict_get m "temp" _) as [t|e]; [|destruct e; eauto].
    destruct (dict_get m "feels_like" _) as [fl|e]; [|destruct e; eauto].
    destruct (dict_get m "humidity" _) as [h|e]; [|destruct e]; eauto.
Qed.

Lemma search_wikipedia_invoked query tr :
  exists r,
    search_wikipedia w query tr = ((tr ++ [(Wikipedia, query)])%list, Ok r).
Proof.
  unfold search_wikipedia, bind, invoke, ret, try_except, lift.
  destruct (wikipedia_summary w query) as [r|e]; [|destruct e]; eauto.
Qed.

Lemma play_spotify_invoked song tr :
  exists r, play_spotify w song tr = ((tr ++ [(Spotify, song)])%list, Ok r).
Proof.
  unfold play_spotify, bind, invoke, ret.
  destruct (sp w) as [client|]; [|eauto].
  unfold try_except, lift.
  destruct (sp_search client song) as [res|e]; [|eauto].
  destruct (getitem_str res "tracks") as [tracks|e]; [|eauto].
  destruct (getitem_str tracks "items") as [items|e]; [|eauto].
  destruct (truthy items); [|eauto].
  destruct (getitem_0 items) as [track|e]; [|eauto].
  destruct (getitem_str track "uri") as [uri|e]; [|eauto].
  destruct (sp_start_playback client [uri]) as [u|e]; [|eauto].
  destruct (getitem_str track "name") as [name|e]; [|eauto].
  destruct (getitem_str track "artists") as [artists|e]; [|eauto].
  destruct (getitem_0 artists) as [artist|e]; [|eauto].
  destruct (getitem_str artist "name") as [an|e]; eauto.
Qed.

Lemma search_google_invoked query tr :
  exists r, search_google w query tr = ((tr ++ [(Google, query)])%list, Ok r).
Proof.
  unfold search_google, bind, invoke, ret, try_except, lift.
  destruct (pwt_search w query) as [u|e]; eauto.
Qed.

End Router.

(** ** Input validation *)

(** C10: for every input that is not a string (such as [None]) or is falsy
    before normalisation, the router answers "Please provide a valid command"
    and invokes no adapter; this message differs from the retry message given
    for white-space-only text. *)
Theorem invalid_input_fixed_message (w : World) (v : pyval) :
  isinstance_str v = false \/ truthy v = false ->
  process_command w v [] = ([], Ok "Please provide a valid command")
  /\ "Please provide a valid command"
     <> "I didn't catch that. Please try again.".
Proof.
  intros H. split; [|discriminate].
  now rewrite process_command_invalid.
Qed.

Lemma invalid_input_fixed_message_witness :
  process_command (Demo.world None) PyNone []
  = ([], Ok "Please provide a valid command")
  /\ process_command (Demo.world None) (PyList [PyStr "time"]) []
     = ([], Ok "Please provide a valid command").
Proof.
  split.
  - apply (invalid_input_fixed_message (Demo.world None) PyNone).
    left. reflexivity.
  - apply (invalid_input_fixed_message (Demo.world None)
             (PyList [PyStr "time"])).
    left. reflexivity.
Defined.

(** C2, as stated, fails on the empty input: the empty string is caught by
    the first guard and answered with "Please provide a valid command", not
    with the retry message a blank string gets. *)
Lemma empty_input_is_not_answered_with_retry :
  all_space "" = true
  /\ process_command (Demo.world None) (PyStr "") []
     = ([], Ok "Please provide a valid command")
  /\ process_command (Demo.world None) (PyStr " ") []
     = ([], Ok "I didn't catch that. Please try again.")
  /\ snd (process_command (Demo.world None) (PyStr "") [])
     <> snd (process_command (Demo.world None) (PyStr " ") []).
Proof. repeat split. discriminate. Qed.

(** C2 (amended): for every input made only of white space, no adapter is
    invoked; a non-empty one is answered with the one fixed retry message
    "I didn't catch that. Please try again.", the empty one with
    "Please provide a valid command". *)
Theorem blank_input_fixed_message (w : World) (s : string) :
  all_space s = true ->
  process_command w (PyStr s) []
  = ([], Ok (if is_empty s then "Please provide a valid command"
             else "I didn't catch that. Please try again.")).
Proof.
  intros H. destruct s as [|c t] eqn:E.
  - reflexivity.
  - rewrite <- E in *. rewrite process_command_blank.
    + subst s. reflexivity.
    + subst s. discriminate.
    + now apply all_space_normalises.
Qed.

Lemma blank_input_fixed_message_witness :
  process_command (Demo.world None)
    (PyStr (String " " (String (ascii_of_N 9) (String (ascii_of_N 10) " "))))
    []
  = ([], Ok "I didn't catch that. Please try again.").
Proof.
  apply (blank_input_fixed_message (Demo.world None)
           (String " " (String (ascii_of_N 9) (String (ascii_of_N 10) " ")))).
  reflexivity.
Defined.

(** ** Every adapter turns failures into text *)

(** C4: for every string input the router returns a string and raises
    nothing, whatever the providers do; each adapter (weather, encyclopedia,
    music, web search) returns a string on every argument, every exception
    raised inside it (time-out, malformed payload, provider error) being
    caught at its own boundary, and missing credentials answered in text. *)
Theorem process_command_never_raises (w : World) :
  (forall s tr, exists tr' r, process_command w (PyStr s) tr = (tr', Ok r))
  /\ (forall city tr, exists tr' r, get_weather w city tr = (tr', Ok r))
  /\ (forall q tr, exists tr' r, search_wikipedia w q tr = (tr', Ok r))
  /\ (forall song tr, exists tr' r, play_spotify w song tr = (tr', Ok r))
  /\ (forall q tr, exists tr' r, search_google w q tr = (tr', Ok r)).
Proof.
  assert (Hw : forall city tr,
             exists tr' r, get_weather w city tr = (tr', Ok r)).
  { intros city tr. destruct (get_weather_invoked w city tr) as [r H]. eauto. }
  assert (Hk : forall q tr,
             exists tr' r, search_wikipedia w q tr = (tr', Ok r)).
  { intros q tr. destruct (search_wikipedia_invoked w q tr) as [r H]. eauto. }
  assert (Hp : forall song tr,
             exists tr' r, play_spotify w song tr = (tr', Ok r)).
  { intros q tr. destruct (play_spotify_invoked w q tr) as [r H]. eauto. }
  assert (Hg : forall q tr,
             exists tr' r, search_google w q tr = (tr', Ok r)).
  { intros q tr. destruct (search_google_invoked w q tr) as [r H]. eauto. }
  repeat split; auto.
  intros s tr. unfold process_command.
  repeat match goal with
         | |- context [if ?b then _ else _] => destruct b
         end;
    try (unfold ret; eauto; fail); auto.
Qed.

(** ** The encyclopedia adapter *)

(** C5: when the summary lookup raises the ambiguous-topic error, the
    returned string lists a prefix of the reported options of length at most
    three, however many the provider reports. *)
Theorem disambiguation_lists_at_most_three
    (w : World) (query : string) (options : list string) (tr : trace) :
  wikipedia_summary w query = Raise (DisambiguationError options) ->
  exists shown,
    search_wikipedia w query tr
    = ((tr ++ [(Wikipedia, query)])%list,
       Ok ("Multiple matches. Be more specific. Options: "
           ++ join ", " shown ++ "..."))
    /\ shown = firstn 3 options
    /\ List.length shown <= 3
    /\ (forall o, In o shown -> In o options).
Proof.
  intros H. exists (firstn 3 options). repeat split.
  - unfold search_wikipedia, bind, invoke, try_except, lift, ret.
    now rewrite H.
  - apply firstn_le_length.
  - intros o Ho.
    rewrite <- (firstn_skipn 3 options). apply in_or_app. now left.
Qed.

Lemma disambiguation_lists_at_most_three_witness :
  exists shown,
    search_wikipedia (Demo.world None) "mercury" []
    = ([(Wikipedia, "mercury")],
       Ok ("Multiple matches. Be more specific. Options: "
           ++ join ", " shown ++ "..."))
    /\ shown = ["Mercury (planet)"; "Mercury (element)"; "Mercury (mythology)"]
    /\ List.length shown <= 3
    /\ (forall o, In o shown ->
        In o ["Mercury (planet)"; "Mercury (element)";
              "Mercury (mythology)"; "Freddie Mercury"]).
Proof.
  apply (disambiguation_lists_at_most_three (Demo.world None) "mercury"
           ["Mercury (planet)"; "Mercury (element)";
            "Mercury (mythology)"; "Freddie Mercury"] []).
  reflexivity.
Defined.

(** ** Keyword matching is substring containment *)

Lemma lower_app a b : lower (a ++ b) = lower a ++ lower b.
Proof. induction a as [|c a IH]; cbn; [reflexivity | now rewrite IH]. Qed.

Lemma lower_nonempty s : lower s <> "" -> s <> "".
Proof. now intros H ->. Qed.

Lemma startswith_lower p s :
  startswith p s = true -> startswith (lower p) (lower s) = true.
Proof.
  revert s. induction p as [|a p IH]; intros [|b s] H;
    try reflexivity; try discriminate.
  cbn in *. apply andb_true_iff in H as [Ha Hp].
  apply Ascii.eqb_eq in Ha. subst b.
  now rewrite Ascii.eqb_refl, (IH _ Hp).
Qed.

(** A keyword written in lower case that occurs in the input occurs in the
    lower-cased input. *)
Lemma contains_lower k s :
  contains k s = true -> contains (lower k) (lower s) = true.
Proof.
  induction s as [|c s IH]; intros H.
  - cbn in H. rewrite orb_false_r in H.
    apply startswith_empty_r in H. now subst.
  - cbn [contains] in H. apply orb_true_iff in H as [H|H].
    + apply startswith_lower in H. cbn [lower contains] in *. now rewrite H.
    + cbn [lower contains]. rewrite (IH H). apply orb_true_r.
Qed.

(** What the first guards of [process_command] do with a string whose
    lower-cased text contains a keyword free of white space. *)
Lemma keyword_passes_guards k s :
  first_char_nonspace k = true -> last_char_nonspace k = true ->
  contains k (lower s) = true ->
  s <> "" /\ is_empty (strip (lower s)) = false.
Proof.
  intros Hf Hl H.
  assert (Hk : k <> "") by (destruct k; [discriminate | congruence]).
  split.
  - apply lower_nonempty. exact (contains_nonempty _ _ H Hk).
  - rewrite <- (contains_strip k (lower s) Hf Hl) in H.
    pose proof (contains_nonempty _ _ H Hk) as Hn.
    destruct (strip (lower s)); [congruence | reflexivity].
Qed.

(** C8: the greeting rule matches by raw substring: whenever the lower-cased
    input contains "hi" or "hey" anywhere, inside a longer word or not, the
    router returns the fixed greeting and invokes nothing, whatever other
    keywords ("time", "date", "weather", ...) the input holds. *)
Theorem greeting_matches_inside_words (w : World) (s : string) :
  contains "hi" (lower s) = true \/ contains "hey" (lower s) = true ->
  process_command w (PyStr s) [] = ([], Ok "Hello! How can I help?").
Proof.
  intros H.
  assert (Hg : s <> "" /\ is_empty (strip (lower s)) = false
               /\ existsb (fun word => contains word (strip (lower s)))
                    ["hello"; "hi"; "hey"] = true).
  { destruct H as [H|H].
    - destruct (keyword_passes_guards "hi" s eq_refl eq_refl H) as [Hs He].
      repeat split; auto. cbn [existsb].
      rewrite (contains_strip "hi") by reflexivity. rewrite H.
      now rewrite orb_true_r.
    - destruct (keyword_passes_guards "hey" s eq_refl eq_refl H) as [Hs He].
      repeat split; auto. cbn [existsb].
      rewrite (contains_strip "hey") by reflexivity. rewrite H.
      now rewrite !orb_true_r. }
  destruct Hg as (Hs & He & Hx).
  unfold process_command. cbn [truthy isinstance_str str_value].
  destruct s as [|a t]; [congruence|]. cbn [is_empty negb orb].
  now rewrite He, Hx.
Qed.

Lemma greeting_matches_inside_words_witness :
  process_command (Demo.world None)
    (PyStr "Which date and time is the weather report for?") []
  = ([], Ok "Hello! How can I help?")
  /\ process_command (Demo.world None) (PyStr "are THEY playing music") []
     = ([], Ok "Hello! How can I help?").
Proof.
  split.
  - apply (greeting_matches_inside_words (Demo.world None)
             "Which date and time is the weather report for?").
    left. reflexivity.
  - apply (greeting_matches_inside_words (Demo.world None)
             "are THEY playing music").
    right. reflexivity.
Defined.

(** ** The city argument of the weather rule *)

(** C3, as stated, fails in its first half: the command is lower-cased
    before the city is cut out of it, so "weather in Paris" hands the
    adapter "paris", not "Paris". *)
Lemma weather_in_Paris_city_is_lowercase :
  fst (process_command (Demo.world None) (PyStr "weather in Paris") [])
  = [(Weather, "paris")]
  /\ fst (process_command (Demo.world None) (PyStr "weather in Paris") [])
     <> [(Weather, "Paris")].
Proof. split; [reflexivity | discriminate]. Qed.

(** C3 (amended): for the input "weather in Paris" the router invokes the
    weather adapter, once, with the lower-cased city "paris"; for the input
    "weather" alone it invokes it with the default "New York". *)
Theorem weather_city_argument (w : World) :
  (exists r, process_command w (PyStr "weather in Paris") []
             = ([(Weather, "paris")], Ok r))
  /\ (exists r, process_command w (PyStr "weather") []
                = ([(Weather, "New York")], Ok r)).
Proof.
  split.
  - change (process_command w (PyStr "weather in Paris") [])
      with (get_weather w "paris" []).
    apply get_weather_invoked.
  - change (process_command w (PyStr "weather") [])
      with (get_weather w "New York" []).
    apply get_weather_invoked.
Qed.

Lemma weather_in_normalised c :
  contains "in" (lower c) = true ->
  strip (lower ("weather in " ++ c)) = "weather in " ++ rstrip (lower c)
  /\ contains "in" (rstrip (lower c)) = true.
Proof.
  intros H.
  assert (He : contains "in" (rstrip (lower c)) = true)
    by now apply contains_rstrip.
  split; [|exact He].
  rewrite lower_app. change (lower "weather in ") with "weather in ".
  unfold strip. rewrite lstrip_nonspace by reflexivity.
  apply rstrip_app. intros E. rewrite E in He. discriminate.
Qed.

Lemma extract_shrinks e :
  contains "in" e = true ->
  String.length (strip (replace "in" "" (replace "weather" "" e)))
  < String.length e.
Proof.
  intros H.
  pose proof (length_strip (replace "in" "" (replace "weather" "" e))) as Hs.
  pose proof (length_replace "in" (replace "weather" "" e)) as Hi.
  destruct (contains "weather" e) eqn:Hw.
  - pose proof (replace_removes "weather" e) as Hr.
    assert ("weather" <> "") by discriminate. intuition lia.
  - rewrite (replace_absent _ _ Hw) in *.
    pose proof (replace_removes "in" e) as Hr.
    assert ("in" <> "") by discriminate. intuition lia.
Qed.

(** The weather branch is reached when the three earlier rules fail. *)
Lemma process_command_weather (w : World) s :
  s <> "" ->
  is_empty (strip (lower s)) = false ->
  existsb (fun word => contains word (strip (lower s))) ["hello"; "hi"; "hey"]
  = false ->
  contains "time" (strip (lower s)) = false ->
  contains "date" (strip (lower s)) = false ->
  contains "weather" (strip (lower s)) = true ->
  process_command w (PyStr s)
  = get_weather w
      (or_else (strip (replace "in" ""
                         (replace "weather" "" (strip (lower s)))))
               "New York").
Proof.
  intros Hs He Hg Ht Hd Hw. unfold process_command.
  cbn [truthy isinstance_str str_value].
  destruct s as [|a t]; [congruence|]. cbn [is_empty negb orb].
  now rewrite He, Hg, Ht, Hd, Hw.
Qed.

(** C9: the city is cut out by deleting the substrings "weather" and "in",
    not the words: for every city name [c] that contains "in" (in any
    letter case, see [contains_lower]), the argument
    derived from "weather in c" differs from [c] (it is shorter, or the
    default); when no earlier rule takes the command, that argument is what
    the weather adapter is invoked with; "weather in berlin" yields "berl". *)
Theorem weather_city_loses_in (w : World) (c : string) :
  contains "in" (lower c) = true ->
  let command := strip (lower ("weather in " ++ c)) in
  let city :=
    or_else (strip (replace "in" "" (replace "weather" "" command)))
            "New York" in
  city <> c
  /\ (city = "New York" \/ String.length city < String.length c)
  /\ (existsb (fun word => contains word command) ["hello"; "hi"; "hey"]
      = false ->
      contains "time" command = false ->
      contains "date" command = false ->
      exists r, process_command w (PyStr ("weather in " ++ c)) []
                = ([(Weather, city)], Ok r))
  /\ (exists r, process_command w (PyStr "weather in berlin") []
                = ([(Weather, "berl")], Ok r)).
Proof.
  intros H command city.
  destruct (weather_in_normalised c H) as [Hn He].
  assert (Hlen : city = "New York" \/ String.length city < String.length c).
  { subst city command. rewrite Hn, weather_in_extract.
    pose proof (extract_shrinks _ He) as Hs.
    pose proof (length_rstrip (lower c)) as Hr.
    rewrite length_lower in Hr.
    unfold or_else.
    destruct (is_empty (strip (replace "in" "" (replace "weather" ""
                                  (rstrip (lower c))))));
      [now left | right; lia]. }
  repeat split.
  - destruct Hlen as [Hd|Hd]; intros E.
    + rewrite Hd in E. subst c. discriminate.
    + rewrite E in Hd. lia.
  - exact Hlen.
  - intros Hg Ht Hd.
    assert (Hc : is_empty command = false /\ contains "weather" command = true).
    { subst command. rewrite Hn. split; reflexivity. }
    destruct Hc as [Hc1 Hc2].
    rewrite (process_command_weather w ("weather in " ++ c));
      try assumption; [|discriminate].
    apply get_weather_invoked.
  - change (process_command w (PyStr "weather in berlin") [])
      with (get_weather w "berl" []).
    apply get_weather_invoked.
Qed.

Lemma weather_city_loses_in_witness :
  or_else (strip (replace "in" "" (replace "weather" ""
             (strip (lower ("weather in " ++ "Beijing")))))) "New York"
  <> "Beijing"
  /\ exists r, process_command (Demo.world None)
                 (PyStr ("weather in " ++ "Beijing")) []
               = ([(Weather, "beijg")], Ok r).
Proof.
  pose proof (weather_city_loses_in (Demo.world None) "Beijing" eq_refl)
    as (Hne & _ & Hrun & _).
  split; [exact Hne|].
  apply Hrun; reflexivity.
Defined.

(** ** Rule precedence *)

(** C1, as stated, fails in its last part: an input that contains "weather",
    "play" and "music" is taken by an earlier rule when one matches; here
    the "hi" inside "this" makes it a greeting and no adapter is invoked. *)
Lemma weather_play_music_taken_by_greeting :
  contains "weather" "play this weather music" = true
  /\ contains "play" "play this weather music" = true
  /\ contains "music" "play this weather music" = true
  /\ process_command (Demo.world None) (PyStr "play this weather music") []
     = ([], Ok "Hello! How can I help?").
Proof. repeat split. Qed.

(** C1 (amended): on every command that is not blank the router is the
    top-down scan of the table greeting, time, date, weather, wikipedia,
    play-music, search-google with the web search as default: the first
    rule that matches handles the command, so of two matching rules the
    later one never does; in particular an input that contains "weather",
    "play" and "music" and no keyword of the three earlier rules ("hello",
    "hi", "hey", "time", "date") goes to the weather adapter, not to the
    music adapter. *)
Theorem first_matching_rule_wins (w : World) (s : string) :
  s <> "" -> strip (lower s) <> "" ->
  let c := strip (lower s) in
  map rule_name (rule_table w)
  = ["greeting"; "time"; "date"; "weather"; "wikipedia"; "play-music";
     "search-google"]
  /\ (forall i r,
        nth_error (rule_table w) i = Some r -> matches r c = true ->
        (forall k r', k < i -> nth_error (rule_table w) k = Some r' ->
                      matches r' c = false) ->
        process_command w (PyStr s) = handle r c)
  /\ ((forall r, In r (rule_table w) -> matches r c = false) ->
      process_command w (PyStr s) = search_google w c)
  /\ (forall i j ri rj,
        i < j ->
        nth_error (rule_table w) i = Some ri -> matches ri c = true ->
        nth_error (rule_table w) j = Some rj -> matches rj c = true ->
        exists k rk, k <= i /\ nth_error (rule_table w) k = Some rk
                     /\ matches rk c = true
                     /\ process_command w (PyStr s) = handle rk c)
  /\ (contains "weather" (lower s) = true ->
      contains "play" (lower s) = true ->
      contains "music" (lower s) = true ->
      contains "hello" (lower s) = false ->
      contains "hi" (lower s) = false ->
      contains "hey" (lower s) = false ->
      contains "time" (lower s) = false ->
      contains "date" (lower s) = false ->
      exists city r,
        process_command w (PyStr s) [] = ([(Weather, city)], Ok r)).
Proof.
  intros Hs Hc c. pose proof (process_command_routes w s Hs Hc) as Hroute.
  fold c in Hroute. repeat split.
  - intros i r Hn Hm Hlt. rewrite Hroute. unfold route_by_table.
    now rewrite (find_first (fun r => matches r c) _ i r Hn Hm Hlt).
  - intros Hnone. rewrite Hroute. unfold route_by_table.
    now rewrite (find_no_match (fun r => matches r c) _ Hnone).
  - intros i j ri rj Hij Hi Hmi Hj Hmj.
    destruct (find_at_or_before (fun r => matches r c) _ i ri Hi Hmi)
      as (k & rk & Hk & Hnk & Hmk & Hfind).
    exists k, rk. repeat split; auto.
    rewrite Hroute. unfold route_by_table. now rewrite Hfind.
  - intros Hw _ _ Hhello Hhi Hhey Htime Hdate.
    rewrite <- (contains_strip "weather" (lower s) eq_refl eq_refl) in Hw.
    rewrite <- (contains_strip "hello" (lower s) eq_refl eq_refl) in Hhello.
    rewrite <- (contains_strip "hi" (lower s) eq_refl eq_refl) in Hhi.
    rewrite <- (contains_strip "hey" (lower s) eq_refl eq_refl) in Hhey.
    rewrite <- (contains_strip "time" (lower s) eq_refl eq_refl) in Htime.
    rewrite <- (contains_strip "date" (lower s) eq_refl eq_refl) in Hdate.
    rewrite (process_command_weather w s); auto.
    + eexists. apply (get_weather_invoked w _ []).
    + clear - Hc. destruct (strip (lower s)); [congruence | reflexivity].
    + cbn [existsb]. now rewrite Hhello, Hhi, Hhey.
Qed.

Lemma first_matching_rule_wins_witness :
  exists city r,
    process_command (Demo.world None) (PyStr "weather music play") []
    = ([(Weather, city)], Ok r).
Proof.
  assert (H1 : "weather music play" <> "") by discriminate.
  assert (H2 : strip (lower "weather music play") <> "") by discriminate.
  pose proof (first_matching_rule_wins (Demo.world None)
                "weather music play" H1 H2) as (_ & _ & _ & _ & H).
  apply H; reflexivity.
Defined.

(** ** The object store *)

Lemma startswith_app p s : startswith p (p ++ s) = true.
Proof.
  induction p as [|c p IH]; [reflexivity|].
  cbn. now rewrite Ascii.eqb_refl, IH.
Qed.

Lemma in_insert_by_key o b y :
  In y (S3.insert_by_key o b) <-> y = o \/ In y b.
Proof.
  induction b as [|x b IH]; cbn.
  - intuition.
  - destruct (String.ltb (S3.obj_key o) (S3.obj_key x)); cbn;
      rewrite ?IH; intuition.
Qed.

Lemma filter_insert_out (p : S3.s3_object -> bool) o b :
  p o = false -> filter p (S3.insert_by_key o b) = filter p b.
Proof.
  intros Ho. induction b as [|x b IH]; cbn.
  - now rewrite Ho.
  - destruct (String.ltb (S3.obj_key o) (S3.obj_key x)); cbn.
    + now rewrite Ho.
    + now rewrite IH.
Qed.

Lemma filter_insert_in (p : S3.s3_object -> bool) o b :
  p o = true -> (forall x, In x b -> p x = false) ->
  filter p (S3.insert_by_key o b) = [o].
Proof.
  intros Ho. induction b as [|x b IH]; intros Hb; cbn.
  - now rewrite Ho.
  - assert (Hx : p x = false) by (apply Hb; now left).
    assert (Hb' : forall y, In y b -> p y = false)
      by (intros y Hy; apply Hb; now right).
    destruct (String.ltb (S3.obj_key o) (S3.obj_key x)); cbn.
    + rewrite Ho, Hx. f_equal.
      clear - Hb'. induction b as [|y b IH]; [reflexivity|]. cbn.
      rewrite (Hb' y) by now left. apply IH. intros z Hz. apply Hb'. now right.
    + rewrite Hx. now apply IH.
Qed.

Lemma length_filter_insert (p : S3.s3_object -> bool) o b :
  p o = true ->
  List.length (filter p (S3.insert_by_key o b)) = S (List.length (filter p b)).
Proof.
  intros Ho. induction b as [|x b IH]; cbn.
  - now rewrite Ho.
  - destruct (String.ltb (S3.obj_key o) (S3.obj_key x)); cbn.
    + rewrite Ho. reflexivity.
    + destruct (p x); cbn; now rewrite IH.
Qed.

Lemma filter_idem {A} (p : A -> bool) (l : list A) :
  filter p (filter p l) = filter p l.
Proof.
  induction l as [|a l IH]; [reflexivity|]. cbn.
  destruct (p a) eqn:E; cbn; rewrite ?E; congruence.
Qed.

Lemma remove_key_spec k b x :
  In x (S3.remove_key k b) <-> In x b /\ S3.obj_key x <> k.
Proof.
  unfold S3.remove_key. rewrite filter_In, negb_true_iff, String.eqb_neq.
  reflexivity.
Qed.

Lemma lookup_insert k o b :
  S3.obj_key o = k -> (forall x, In x b -> S3.obj_key x <> k) ->
  S3.lookup k (S3.insert_by_key o b) = Some o.
Proof.
  intros Ho. unfold S3.lookup.
  induction b as [|x b IH]; intros Hb; cbn.
  - now rewrite Ho, String.eqb_refl.
  - destruct (String.ltb (S3.obj_key o) (S3.obj_key x)); cbn.
    + now rewrite Ho, String.eqb_refl.
    + assert (Hx : S3.obj_key x <> k) by (apply Hb; now left).
      apply String.eqb_neq in Hx. rewrite Hx.
      apply IH. intros y Hy. apply Hb. now right.
Qed.

Lemma lookup_insert_other k o b :
  S3.obj_key o <> k ->
  S3.lookup k (S3.insert_by_key o b) = S3.lookup k b.
Proof.
  intros Ho. apply String.eqb_neq in Ho. unfold S3.lookup.
  induction b as [|x b IH]; cbn.
  - now rewrite Ho.
  - destruct (String.ltb (S3.obj_key o) (S3.obj_key x)); cbn.
    + now rewrite Ho.
    + now rewrite IH.
Qed.

Lemma lookup_remove_other k k' b :
  k' <> k -> S3.lookup k' (S3.remove_key k b) = S3.lookup k' b.
Proof.
  intros Hk. unfold S3.lookup, S3.remove_key.
  induction b as [|x b IH]; cbn; [reflexivity|].
  destruct (String.eqb (S3.obj_key x) k) eqn:Hx; cbn.
  - apply String.eqb_eq in Hx.
    assert (Hx' : String.eqb (S3.obj_key x) k' = false)
      by (apply String.eqb_neq; congruence).
    now rewrite Hx'.
  - destruct (String.eqb (S3.obj_key x) k'); [reflexivity | exact IH].
Qed.

(** ** The recorder *)

(** C7: [save_to_s3] always returns a boolean and raises nothing.  Without
    storage, or when the write raises, it returns [False] and the bucket is
    as before; when the write succeeds it returns [True] and the bucket
    holds, under the key interactions/<timestamp>.json and under no other
    key than before, exactly one object, whose body is the serialised
    {timestamp, input, response} document. *)
Theorem save_to_s3_reports_the_write
    (w : World) (user_input response : string) (b : S3.bucket) :
  let timestamp := now_strftime w "%Y%m%d_%H%M%S" in
  let key := "interactions/" ++ timestamp ++ ".json" in
  let body :=
    json_dumps w (PyDict [("timestamp", PyStr timestamp);
                          ("input", PyStr user_input);
                          ("response", PyStr response)]) in
  exists ok b',
    save_to_s3 w user_input response b = (b', Ok ok)
    /\ (s3 w = None \/ unset (S3_BUCKET_NAME w) = true ->
        ok = false /\ b' = b)
    /\ (forall c e, s3 w = Some c -> S3.put_fault c key = Some e ->
        ok = false /\ b' = b)
    /\ (forall c, s3 w = Some c -> unset (S3_BUCKET_NAME w) = false ->
        S3.put_fault c key = None ->
        ok = true
        /\ filter (fun o => String.eqb (S3.obj_key o) key) b'
           = [ {| S3.obj_key := key; S3.obj_body := body;
                  S3.obj_last_modified := S3.server_time c |} ]
        /\ S3.remove_key key b' = S3.remove_key key b
        /\ (forall k, k <> key -> S3.lookup k b' = S3.lookup k b)).
Proof.
  intros timestamp key body. unfold save_to_s3.
  destruct (s3 w) as [c|] eqn:Hs3.
  2:{ exists false, b. repeat split; intros; congruence. }
  destruct (unset (S3_BUCKET_NAME w)) eqn:Hb.
  { exists false, b. repeat split; intros; congruence. }
  fold timestamp. fold key. fold body.
  unfold try_except, bind, S3.put_object, ret.
  destruct (S3.put_fault c key) as [e|] eqn:Hput.
  { exists false, b. repeat split; intros; congruence. }
  eexists true, _. split; [reflexivity|].
  split; [intros [H|H]; congruence|].
  split; [intros c' e' H; injection H as <-; congruence|].
  intros c' H _ _. injection H as <-. repeat split.
  - apply filter_insert_in; cbn; [apply String.eqb_refl|].
    intros x Hx. apply remove_key_spec in Hx as [_ Hx].
    now apply String.eqb_neq.
  - unfold S3.remove_key at 1. rewrite filter_insert_out.
    + apply filter_idem.
    + cbn. now rewrite String.eqb_refl.
  - intros k Hk. rewrite lookup_insert_other.
    + now apply lookup_remove_other.
    + intros E. apply Hk. symmetry. exact E.
Qed.

Lemma save_to_s3_reports_the_write_witness :
  exists ok b',
    save_to_s3 (Demo.world (Some (Demo.client Demo.half_past_nine)))
      "date" "Today is January 01, 2024" Demo.small_bucket = (b', Ok ok)
    /\ ok = true
    /\ filter (fun o => String.eqb (S3.obj_key o)
                          "interactions/20240101_093000.json") b'
       = [ {| S3.obj_key := "interactions/20240101_093000.json";
              S3.obj_body :=
                Demo.dumps (Demo.interaction "20240101_093000" "date"
                              "Today is January 01, 2024");
              S3.obj_last_modified := Demo.half_past_nine |} ].
Proof.
  destruct (save_to_s3_reports_the_write
              (Demo.world (Some (Demo.client Demo.half_past_nine)))
              "date" "Today is January 01, 2024" Demo.small_bucket)
    as (ok & b' & Hrun & _ & _ & Hok).
  exists ok, b'. split; [exact Hrun|].
  destruct (Hok (Demo.client Demo.half_past_nine) eq_refl eq_refl eq_refl)
    as (H1 & H2 & _).
  split; [exact H1 | exact H2].
Defined.

(** *** Listing, ordering and reading back *)

Lemma in_insert_desc x l y : In y (insert_desc x l) -> y = x \/ In y l.
Proof.
  induction l as [|z l IH]; cbn.
  - intuition.
  - destruct (S3.LastModified x <? S3.LastModified z)%Z; cbn; intuition.
Qed.

Lemma in_sorted_desc l y : In y (sorted_desc l) -> In y l.
Proof.
  revert y. induction l as [|x l IH]; intros y; cbn; [auto|].
  intros H. apply in_insert_desc in H as [->|H]; auto.
Qed.

(** An entry whose stamp is strictly the latest comes first. *)
Lemma sorted_desc_head l x :
  In x l ->
  (forall y, In y l -> y = x \/ (S3.LastModified y < S3.LastModified x)%Z) ->
  exists tl, sorted_desc l = x :: tl.
Proof.
  induction l as [|a l IH]; intros Hin Hmax; [contradiction|].
  cbn [sorted_desc fold_right]. fold (sorted_desc l).
  assert (Hmax' : forall y, In y l ->
                    y = x \/ (S3.LastModified y < S3.LastModified x)%Z)
    by (intros y Hy; apply Hmax; now right).
  destruct (Hmax a (or_introl eq_refl)) as [->|Ha].
  - destruct (sorted_desc l) as [|z tl] eqn:E; cbn; [eauto|].
    assert (Hz : In z l) by (apply in_sorted_desc; rewrite E; now left).
    destruct (Hmax' z Hz) as [->|Hz'].
    + destruct (S3.LastModified x <? S3.LastModified x)%Z; eauto.
    + assert (Hlt : (S3.LastModified x <? S3.LastModified z)%Z = false)
        by (apply Z.ltb_ge; lia).
      rewrite Hlt. eauto.
  - destruct Hin as [->|Hin]; [lia|].
    destruct (IH Hin Hmax') as [tl ->]. cbn.
    assert (Hlt : (S3.LastModified a <? S3.LastModified x)%Z = true)
      by (apply Z.ltb_lt; lia).
    rewrite Hlt. eauto.
Qed.

Lemma listing_after_put c k body b :
  startswith "interactions/" k = true ->
  S3.list_fault c = None ->
  List.length (S3.under "interactions/" (S3.remove_key k b)) < S3.MaxKeys ->
  let new := {| S3.obj_key := k; S3.obj_body := body;
                S3.obj_last_modified := S3.server_time c |} in
  let b' := S3.insert_by_key new (S3.remove_key k b) in
  exists page,
    S3.list_objects_v2 c "interactions/" b'
    = (b', Ok (Some (map S3.summarise page)))
    /\ In new page
    /\ (forall o, In o page ->
          o = new \/ (In o (S3.under "interactions/" b) /\ S3.obj_key o <> k)).
Proof.
  intros Hk Hl Hlen new b'.
  exists (S3.under "interactions/" b').
  assert (Hnew : startswith "interactions/" (S3.obj_key new) = true)
    by exact Hk.
  assert (Hfull : firstn S3.MaxKeys (S3.under "interactions/" b')
                  = S3.under "interactions/" b').
  { apply firstn_all2. unfold S3.under, b'.
    rewrite length_filter_insert by exact Hnew.
    unfold S3.under in Hlen. lia. }
  assert (Hin : In new (S3.under "interactions/" b')).
  { unfold S3.under. apply filter_In. split; [|exact Hnew].
    apply in_insert_by_key. now left. }
  repeat split.
  - unfold S3.list_objects_v2. rewrite Hl, Hfull.
    destruct (S3.under "interactions/" b'); [contradiction | reflexivity].
  - exact Hin.
  - intros o Ho. unfold S3.under in Ho. apply filter_In in Ho as [Ho Hp].
    apply in_insert_by_key in Ho as [->|Ho]; [now left | right].
    apply remove_key_spec in Ho as [Ho Hne]. split; [|exact Hne].
    unfold S3.under. apply filter_In. split; assumption.
Qed.

Lemma load_each_single (w : World) c s b o doc :
  S3.get_fault c (S3.Key s) = None ->
  S3.lookup (S3.Key s) b = Some o ->
  json_loads w (S3.obj_body o) = Ok doc ->
  load_each w c [s] [] b = (b, Ok [doc]).
Proof.
  intros Hg Hl Hd. cbn [load_each].
  unfold bind, try_except, S3.get_object, lift, ret.
  now rewrite Hg, Hl, Hd.
Qed.

(** C6, as stated, fails in two ways.  First, the history is ordered by the
    provider's stamps: a write that reaches the provider in the same second
    as the previous one ties with it, the stable sort keeps the listing
    order, and the most recent entry shown is the previous interaction.
    Second, a listing is one page of [MaxKeys] keys in key order: after a
    full page of earlier interactions the object just written is not
    listed at all. *)
Lemma record_then_recent_can_miss_the_write :
  (let w := Demo.world (Some (Demo.client Demo.half_past_nine)) in
   let '(b', ok) :=
     save_to_s3 w "date" "Today is January 01, 2024" Demo.busy_bucket in
   ok = Ok true
   /\ snd (load_history w 1 b')
      = Ok [Demo.interaction "20240101_092959" "time" "The time is 09:29"]
   /\ snd (load_history w 1 b')
      <> Ok [Demo.interaction "20240101_093000" "date"
               "Today is January 01, 2024"])
  /\
  (let w := Demo.world (Some (Demo.client Demo.half_past_nine)) in
   let '(b', ok) :=
     save_to_s3 w "date" "Today is January 01, 2024" Demo.full_bucket in
   ok = Ok true
   /\ List.length b' = 1001
   /\ snd (load_history w 1 b')
      = Ok [Demo.interaction "20240101_001639" "time" "The time is 00:00"]
   /\ snd (load_history w 1 b')
      <> Ok [Demo.interaction "20240101_093000" "date"
               "Today is January 01, 2024"]).
Proof.
  split.
  - vm_compute. repeat split. discriminate.
  - vm_compute. repeat split. discriminate.
Qed.

(** C6 (amended): with storage configured and the three calls succeeding,
    when the provider stamps the new object strictly later than every other
    interaction object and the interaction objects fit one listing page, a
    successful [save_to_s3] followed by [load_history(1)] returns exactly
    the document just written (same timestamp, input and response); without
    storage, or when the listing fails, [load_history] returns the empty
    list. *)
Theorem record_then_recent (w : World) :
  (forall (user_input response : string) (b : S3.bucket) (c : S3.client),
      s3 w = Some c -> unset (S3_BUCKET_NAME w) = false ->
      let timestamp := now_strftime w "%Y%m%d_%H%M%S" in
      let key := "interactions/" ++ timestamp ++ ".json" in
      let doc := PyDict [("timestamp", PyStr timestamp);
                         ("input", PyStr user_input);
                         ("response", PyStr response)] in
      S3.put_fault c key = None ->
      S3.list_fault c = None ->
      S3.get_fault c key = None ->
      json_loads w (json_dumps w doc) = Ok doc ->
      (forall o, In o (S3.under "interactions/" b) -> S3.obj_key o <> key ->
                 (S3.obj_last_modified o < S3.server_time c)%Z) ->
      List.length (S3.under "interactions/" (S3.remove_key key b))
      < S3.MaxKeys ->
      exists b',
        save_to_s3 w user_input response b = (b', Ok true)
        /\ load_history w 1 b' = (b', Ok [doc]))
  /\ (s3 w = None \/ unset (S3_BUCKET_NAME w) = true ->
      forall limit b, load_history w limit b = (b, Ok []))
  /\ (forall c e, s3 w = Some c -> S3.list_fault c = Some e ->
      forall limit b, load_history w limit b = (b, Ok [])).
Proof.
  repeat split.
  - intros user_input response b c Hs3 Hname timestamp key doc
      Hput Hlist Hget Hjson Hnewest Hpage.
    set (new := {| S3.obj_key := key; S3.obj_body := json_dumps w doc;
                   S3.obj_last_modified := S3.server_time c |}).
    exists (S3.insert_by_key new (S3.remove_key key b)). split.
    + unfold save_to_s3. rewrite Hs3, Hname. fold timestamp key doc.
      unfold try_except, bind, S3.put_object, ret. now rewrite Hput.
    + assert (Hk : startswith "interactions/" key = true)
        by apply startswith_app.
      destruct (listing_after_put c key (json_dumps w doc) b Hk Hlist Hpage)
        as (page & Hl & Hin & Hothers).
      fold new in Hl, Hin, Hothers.
      destruct (sorted_desc_head (map S3.summarise page) (S3.summarise new))
        as [tl Hsorted].
      * now apply in_map.
      * intros y Hy. apply in_map_iff in Hy as (o & <- & Ho).
        destruct (Hothers o Ho) as [->|[Hu Hne]]; [now left | right].
        cbn. now apply Hnewest.
      * unfold load_history. rewrite Hs3, Hname.
        unfold try_except, bind at 1. rewrite Hl, Hsorted.
        cbn [firstn].
        rewrite (load_each_single w c (S3.summarise new) _ new doc);
          [reflexivity | exact Hget | | exact Hjson].
        apply lookup_insert; [reflexivity|].
        intros x Hx. now apply remove_key_spec in Hx.
  - intros [H|H] limit b; unfold load_history.
    + now rewrite H.
    + rewrite H. now destruct (s3 w).
  - intros c e Hs3 Hl limit b. unfold load_history. rewrite Hs3.
    destruct (unset (S3_BUCKET_NAME w)); [reflexivity|].
    unfold try_except, bind, S3.list_objects_v2, ret. now rewrite Hl.
Qed.

Lemma record_then_recent_witness :
  exists b',
    save_to_s3 (Demo.world (Some (Demo.client Demo.half_past_nine)))
      "date" "Today is January 01, 2024" Demo.small_bucket = (b', Ok true)
    /\ load_history (Demo.world (Some (Demo.client Demo.half_past_nine))) 1 b'
       = (b', Ok [Demo.interaction "20240101_093000" "date"
                    "Today is January 01, 2024"]).
Proof.
  apply (proj1 (record_then_recent
                  (Demo.world (Some (Demo.client Demo.half_past_nine))))
           "date" "Today is January 01, 2024" Demo.small_bucket
           (Demo.client Demo.half_past_nine));
    try reflexivity.
  - intros o [<-|[]] _. reflexivity.
  - vm_compute. lia.
Defined.

(** * Further properties of the program *)

(** ** Normalisation *)

Lemma isspace_after_lower c : isspace (lower_char c) = isspace c.
Proof.
  destruct c as [b0 b1 b2 b3 b4 b5 b6 b7].
  destruct b0, b1, b2, b3, b4, b5, b6, b7; reflexivity.
Qed.

Lemma lower_char_idem c : lower_char (lower_char c) = lower_char c.
Proof.
  destruct c as [b0 b1 b2 b3 b4 b5 b6 b7].
  destruct b0, b1, b2, b3, b4, b5, b6, b7; reflexivity.
Qed.

Lemma lower_idem s : lower (lower s) = lower s.
Proof.
  induction s as [|c t IH]; [reflexivity|].
  cbn [lower]. now rewrite lower_char_idem, IH.
Qed.

Lemma lower_lstrip s : lower (lstrip s) = lstrip (lower s).
Proof.
  induction s as [|c t IH]; [reflexivity|].
  cbn [lower lstrip]. rewrite isspace_after_lower.
  destruct (isspace c); [exact IH | reflexivity].
Qed.

Lemma is_empty_lower s : is_empty (lower s) = is_empty s.
Proof. now destruct s. Qed.

Lemma lower_rstrip s : lower (rstrip s) = rstrip (lower s).
Proof.
  induction s as [|c t IH]; [reflexivity|].
  cbn [lower rstrip]. rewrite isspace_after_lower, <- IH, is_empty_lower.
  destruct (is_empty (rstrip t) && isspace c); reflexivity.
Qed.

Lemma lower_strip s : lower (strip s) = strip (lower s).
Proof. unfold strip. now rewrite lower_rstrip, lower_lstrip. Qed.

Lemma rstrip_idem s : rstrip (rstrip s) = rstrip s.
Proof.
  induction s as [|c t IH]; [reflexivity|].
  cbn [rstrip]. destruct (is_empty (rstrip t) && isspace c) eqn:E;
    [reflexivity|].
  cbn [rstrip]. now rewrite IH, E.
Qed.

Lemma lstrip_first s :
  lstrip s = "" \/ first_char_nonspace (lstrip s) = true.
Proof.
  induction s as [|c t IH]; [now left|].
  cbn [lstrip]. destruct (isspace c) eqn:E; [exact IH|].
  right. cbn. now rewrite E.
Qed.

Lemma rstrip_first s :
  first_char_nonspace s = true -> first_char_nonspace (rstrip s) = true.
Proof.
  destruct s as [|c t]; [discriminate|].
  cbn [first_char_nonspace rstrip]. intros H.
  apply negb_true_iff in H. rewrite H, andb_false_r. cbn. now rewrite H.
Qed.

Lemma strip_idem s : strip (strip s) = strip s.
Proof.
  unfold strip. destruct (lstrip_first s) as [E|H].
  - now rewrite E.
  - rewrite (lstrip_nonspace (rstrip (lstrip s))) by now apply rstrip_first.
    apply rstrip_idem.
Qed.

Lemma normalise_idem s : strip (lower (strip (lower s))) = strip (lower s).
Proof. now rewrite lower_strip, lower_idem, strip_idem. Qed.

Lemma normalised_nonblank s : strip (lower s) <> "" -> s <> "".
Proof. intros H ->. now apply H. Qed.

(** X1: the router sees its input only through [lower] and [strip]: two
    texts with the same non-blank normal form are treated alike, and a text
    is treated like its own normal form. *)
Theorem router_reads_the_normal_form (w : World) (s s' : string) :
  strip (lower s) <> "" ->
  (strip (lower s') = strip (lower s) ->
   process_command w (PyStr s') = process_command w (PyStr s))
  /\ process_command w (PyStr (strip (lower s))) = process_command w (PyStr s).
Proof.
  intros H.
  assert (Hgen : forall t, strip (lower t) = strip (lower s) ->
                   process_command w (PyStr t) = process_command w (PyStr s)).
  { intros t E.
    rewrite (process_command_routes w s), (process_command_routes w t);
      try (now apply normalised_nonblank); try congruence.
    apply normalised_nonblank. congruence. }
  split; [apply Hgen|]. apply Hgen, normalise_idem.
Qed.

Lemma router_reads_the_normal_form_witness :
  process_command (Demo.world None) (PyStr "  WEATHER in Oslo ")
  = process_command (Demo.world None) (PyStr "weather In oslo").
Proof.
  apply (proj1 (router_reads_the_normal_form (Demo.world None)
                  "weather In oslo" "  WEATHER in Oslo "
                  ltac:(discriminate))).
  reflexivity.
Defined.

(** ** More on the rules of the router *)

Lemma greeting_absent s :
  contains "hello" (lower s) = false ->
  contains "hi" (lower s) = false ->
  contains "hey" (lower s) = false ->
  existsb (fun word => contains word (strip (lower s))) ["hello"; "hi"; "hey"]
  = false.
Proof.
  intros H1 H2 H3. cbn [existsb].
  rewrite (contains_strip "hello"), (contains_strip "hi"),
    (contains_strip "hey") by reflexivity.
  now rewrite H1, H2, H3.
Qed.

Lemma greeting_present s :
  contains "hello" (lower s) = true \/ contains "hi" (lower s) = true
  \/ contains "hey" (lower s) = true ->
  s <> "" /\ is_empty (strip (lower s)) = false
  /\ existsb (fun word => contains word (strip (lower s)))
       ["hello"; "hi"; "hey"] = true.
Proof.
  intros H. cbn [existsb].
  rewrite (contains_strip "hello"), (contains_strip "hi"),
    (contains_strip "hey") by reflexivity.
  destruct H as [H|[H|H]]; rewrite H.
  - destruct (keyword_passes_guards "hello" s eq_refl eq_refl H). auto.
  - destruct (keyword_passes_guards "hi" s eq_refl eq_refl H).
    rewrite orb_true_r. auto.
  - destruct (keyword_passes_guards "hey" s eq_refl eq_refl H).
    rewrite !orb_true_r. auto.
Qed.

Lemma process_command_greets (w : World) s :
  contains "hello" (lower s) = true \/ contains "hi" (lower s) = true
  \/ contains "hey" (lower s) = true ->
  process_command w (PyStr s) = ret "Hello! How can I help?".
Proof.
  intros H. destruct (greeting_present s H) as (Hs & He & Hx).
  unfold process_command. cbn [truthy isinstance_str str_value].
  destruct s as [|a t]; [congruence|]. cbn [is_empty negb orb].
  now rewrite He, Hx.
Qed.

(** X2: an input whose lower-cased text holds no greeting keyword and
    contains "time" is answered from the clock as "The time is HH:MM" without
    any adapter, also when it contains "date" or a later keyword; with "date"
    and without "time" the answer is "Today is <Month DD, YYYY>". *)
Theorem clock_rules (w : World) (s : string) :
  contains "hello" (lower s) = false ->
  contains "hi" (lower s) = false ->
  contains "hey" (lower s) = false ->
  (contains "time" (lower s) = true ->
   process_command w (PyStr s) []
   = ([], Ok ("The time is " ++ now_strftime w "%H:%M")))
  /\ (contains "time" (lower s) = false ->
      contains "date" (lower s) = true ->
      process_command w (PyStr s) []
      = ([], Ok ("Today is " ++ now_strftime w "%B %d, %Y"))).
Proof.
  intros H1 H2 H3. pose proof (greeting_absent s H1 H2 H3) as Hg. split.
  - intros Ht.
    destruct (keyword_passes_guards "time" s eq_refl eq_refl Ht) as [Hs He].
    rewrite <- (contains_strip "time" (lower s) eq_refl eq_refl) in Ht.
    unfold process_command. cbn [truthy isinstance_str str_value].
    destruct s as [|a t]; [congruence|]. cbn [is_empty negb orb].
    now rewrite He, Hg, Ht.
  - intros Ht Hd.
    destruct (keyword_passes_guards "date" s eq_refl eq_refl Hd) as [Hs He].
    rewrite <- (contains_strip "time" (lower s) eq_refl eq_refl) in Ht.
    rewrite <- (contains_strip "date" (lower s) eq_refl eq_refl) in Hd.
    unfold process_command. cbn [truthy isinstance_str str_value].
    destruct s as [|a t]; [congruence|]. cbn [is_empty negb orb].
    now rewrite He, Hg, Ht, Hd.
Qed.

Lemma clock_rules_witness :
  process_command (Demo.world None)
    (PyStr "Tell me the date, the TIME and the weather") []
  = ([], Ok "The time is 09:30")
  /\ process_command (Demo.world None) (PyStr "update the weather") []
     = ([], Ok "Today is January 01, 2024").
Proof.
  split.
  - apply (proj1 (clock_rules (Demo.world None)
                    "Tell me the date, the TIME and the weather"
                    eq_refl eq_refl eq_refl)).
    reflexivity.
  - apply (proj2 (clock_rules (Demo.world None) "update the weather"
                    eq_refl eq_refl eq_refl)); reflexivity.
Defined.

Lemma stripped_argument y :
  is_empty (strip y) = false -> strip y <> "" /\ strip (strip y) = strip y.
Proof.
  intros H. split; [|apply strip_idem].
  intros E. rewrite E in H. discriminate.
Qed.

Lemma default_city_argument y :
  or_else (strip y) "New York" <> ""
  /\ strip (or_else (strip y) "New York") = or_else (strip y) "New York".
Proof.
  unfold or_else. destruct (is_empty (strip y)) eqn:E.
  - split; [discriminate | reflexivity].
  - now apply stripped_argument.
Qed.

(** X3: one command reaches at most one adapter, and never with an empty
    argument or one with white space around it: either no adapter is invoked,
    or exactly one is, on a non-empty text that [strip] leaves unchanged. *)
Theorem at_most_one_adapter_call (w : World) (v : pyval) :
  (exists r, process_command w v [] = ([], Ok r))
  \/ (exists a arg r,
        process_command w v [] = ([(a, arg)], Ok r)
        /\ arg <> "" /\ strip arg = arg).
Proof.
  unfold process_command.
  destruct (negb (truthy v) || negb (isinstance_str v));
    [left; eexists; reflexivity|].
  set (c := strip (lower (str_value v))).
  destruct (is_empty c) eqn:Hc; [left; eexists; reflexivity|].
  destruct (existsb _ _); [left; eexists; reflexivity|].
  destruct (contains "time" c); [left; eexists; reflexivity|].
  destruct (contains "date" c); [left; eexists; reflexivity|].
  destruct (contains "weather" c).
  { right. destruct (get_weather_invoked w
                       (or_else (strip (replace "in" ""
                                          (replace "weather" "" c)))
                                "New York") []) as [r Hr].
    eexists Weather, _, r. split; [exact Hr | apply default_city_argument]. }
  destruct (contains "wikipedia" c || contains "wiki" c).
  { destruct (is_empty (strip _)) eqn:E; [left; eexists; reflexivity|].
    right. destruct (search_wikipedia_invoked w
                       (strip (replace "wiki" ""
                                 (replace "wikipedia" "" c))) []) as [r Hr].
    eexists Wikipedia, _, r. split; [exact Hr | now apply stripped_argument]. }
  destruct (contains "play" c && (contains "song" c || contains "music" c)).
  { destruct (is_empty (strip _)) eqn:E; [left; eexists; reflexivity|].
    right. destruct (play_spotify_invoked w
                       (strip (replace "music" ""
                                 (replace "song" ""
                                    (replace "play" "" c)))) []) as [r Hr].
    eexists Spotify, _, r. split; [exact Hr | now apply stripped_argument]. }
  destruct (contains "search" c && contains "google" c).
  { destruct (is_empty (strip _)) eqn:E; [left; eexists; reflexivity|].
    right. destruct (search_google_invoked w
                       (strip (replace "google" ""
                                 (replace "search" "" c))) []) as [r Hr].
    eexists Google, _, r. split; [exact Hr | now apply stripped_argument]. }
  right. destruct (search_google_invoked w c []) as [r Hr].
  eexists Google, _, r. split; [exact Hr | now apply stripped_argument].
Qed.

(** ** The weather adapter on the payloads it can meet *)

Lemma get_weather_on_payload (w : World) city tr api_key resp data :
  WEATHER_API_KEY w = Some api_key -> is_empty api_key = false ->
  requests_get w (weather_url api_key city) = Ok resp ->
  raise_for_status resp = Ok tt ->
  response_json resp = Ok data ->
  get_weather w city tr
  = try_except
      (cod <- lift (dict_get data "cod" PyNone) ;;
       if ne_int cod 200 then
         message <-
           lift (dict_get data "message" (PyStr "Unknown error")) ;;
         ret ("Weather error: " ++ format_value w message)
       else
         main <- lift (dict_get data "main" (PyDict [])) ;;
         weather_list <-
           lift (dict_get data "weather" (PyList [PyDict []])) ;;
         weather <- lift (getitem_0 weather_list) ;;
         description <-
           lift (dict_get weather "description" (PyStr "N/A")) ;;
         temp <- lift (dict_get main "temp" (PyStr "N/A")) ;;
         feels_like <- lift (dict_get main "feels_like" (PyStr "N/A")) ;;
         humidity <- lift (dict_get main "humidity" (PyStr "N/A")) ;;
         ret ("Weather in " ++ city ++ ": "
              ++ format_value w description ++ ". "
              ++ "Temperature: " ++ format_value w temp ++ degree ++ "C, "
              ++ "feels like " ++ format_value w feels_like ++ degree
              ++ "C. "
              ++ "Humidity: " ++ format_value w humidity ++ "%"))
      (fun e =>
         match e with
         | RequestException _ =>
             ret ("Error fetching weather: " ++ str_exn w e)
         | _ => ret ("Error processing weather data: " ++ str_exn w e)
         end)
      (tr ++ [(Weather, city)])%list.
Proof.
  intros Hk He Hget Hst Hjs. unfold get_weather. rewrite Hk, He.
  unfold weather_url in Hget.
  unfold bind at 1. unfold invoke at 1.
  unfold try_except, bind. unfold lift at 1 2 3.
  unfold lift at 4 5 6. 
  rewrite Hget, Hst, Hjs. reflexivity.
Qed.

(** X4: what the weather adapter makes of an answered request.  A payload
    that is not an object is reported as a processing error; an object
    without "cod", or whose "cod" is not the number 200 (the string "200"
    included), as "Weather error:" with its "message", or "Unknown error"
    when it has none; a 200 payload without "main" and "weather" prints N/A
    in every field; an empty "weather" list is a processing error. *)
Theorem weather_payload_edge_cases
    (w : World) (city : string) (tr : trace) (api_key : string)
    (resp : http_response) :
  WEATHER_API_KEY w = Some api_key -> is_empty api_key = false ->
  requests_get w (weather_url api_key city) = Ok resp ->
  raise_for_status resp = Ok tt ->
  (forall data,
      response_json resp = Ok data -> (forall d, data <> PyDict d) ->
      get_weather w city tr
      = ((tr ++ [(Weather, city)])%list,
         Ok ("Error processing weather data: " ++ str_exn w AttributeError)))
  /\ (forall d,
        response_json resp = Ok (PyDict d) ->
        (lookup_key "cod" d = None
         \/ exists cod, lookup_key "cod" d = Some cod /\ ne_int cod 200 = true) ->
        get_weather w city tr
        = ((tr ++ [(Weather, city)])%list,
           Ok ("Weather error: "
               ++ match lookup_key "message" d with
                  | Some m => format_value w m
                  | None => "Unknown error"
                  end)))
  /\ (forall d,
        response_json resp = Ok (PyDict d) ->
        lookup_key "cod" d = Some (PyInt 200) ->
        lookup_key "main" d = None -> lookup_key "weather" d = None ->
        get_weather w city tr
        = ((tr ++ [(Weather, city)])%list,
           Ok ("Weather in " ++ city ++ ": N/A. Temperature: N/A" ++ degree
               ++ "C, feels like N/A" ++ degree ++ "C. Humidity: N/A%")))
  /\ (forall d,
        response_json resp = Ok (PyDict d) ->
        lookup_key "cod" d = Some (PyInt 200) ->
        lookup_key "weather" d = Some (PyList []) ->
        get_weather w city tr
        = ((tr ++ [(Weather, city)])%list,
           Ok ("Error processing weather data: " ++ str_exn w IndexError))).
Proof.
  intros Hk He Hget Hst. repeat split.
  - intros data Hjs Hshape.
    rewrite (get_weather_on_payload w city tr api_key resp data) by assumption.
    destruct data; try reflexivity. now destruct (Hshape d).
  - intros d Hjs Hcod.
    rewrite (get_weather_on_payload w city tr api_key resp (PyDict d))
      by assumption.
    unfold try_except, bind, lift, ret, dict_get.
    destruct Hcod as [Hcod|(cod & Hcod & Hne)]; rewrite Hcod.
    + cbn [ne_int]. now destruct (lookup_key "message" d).
    + rewrite Hne. now destruct (lookup_key "message" d).
  - intros d Hjs Hcod Hmain Hweather.
    rewrite (get_weather_on_payload w city tr api_key resp (PyDict d))
      by assumption.
    unfold try_except, bind, lift, ret, dict_get.
    rewrite Hcod, Hmain, Hweather. reflexivity.
  - intros d Hjs Hcod Hweather.
    rewrite (get_weather_on_payload w city tr api_key resp (PyDict d))
      by assumption.
    unfold try_except, bind, lift, ret, dict_get.
    rewrite Hcod, Hweather. cbn.
    now destruct (lookup_key "main" d).
Qed.

Lemma weather_payload_edge_cases_witness :
  get_weather
    (Demo.connected (Ok (PyDict [("cod", PyStr "200");
                                 ("main", PyDict [("temp", PyInt 21)])])))
    "oslo" []
  = ([(Weather, "oslo")], Ok "Weather error: Unknown error").
Proof.
  apply (proj1 (proj2 (weather_payload_edge_cases
           (Demo.connected (Ok (PyDict [("cod", PyStr "200");
                                        ("main", PyDict [("temp", PyInt 21)])])))
           "oslo" [] "k"
           {| raise_for_status := Ok tt;
              response_json :=
                Ok (PyDict [("cod", PyStr "200");
                            ("main", PyDict [("temp", PyInt 21)])]) |}
           eq_refl eq_refl eq_refl eq_refl))
         [("cod", PyStr "200"); ("main", PyDict [("temp", PyInt 21)])]
         eq_refl).
  right. exists (PyStr "200"). split; reflexivity.
Defined.

(** ** More on the recorder *)

Lemma load_each_flat (w : World) c objs h b :
  load_each w c objs h b = (b, Ok (h ++ flat_map (readable w c b) objs)%list).
Proof.
  revert h. induction objs as [|s objs IH]; intros h.
  - cbn. now rewrite app_nil_r.
  - cbn [load_each flat_map]. unfold bind at 1.
    assert (E : try_except
                  (body <- S3.get_object c (S3.Key s) ;;
                   v <- lift (json_loads w body) ;;
                   ret (h ++ [v])%list)
                  (fun _ => ret h) b
                = (b, Ok (h ++ readable w c b s)%list)).
    { unfold try_except, bind, S3.get_object, lift, ret, readable.
      destruct (S3.get_fault c (S3.Key s)); [now rewrite app_nil_r|].
      destruct (S3.lookup (S3.Key s) b); [|now rewrite app_nil_r].
      destruct (json_loads w (S3.obj_body s0)); [reflexivity|].
      now rewrite app_nil_r. }
    rewrite E, IH. now rewrite <- app_assoc.
Qed.

Lemma load_history_listed (w : World) c limit b :
  s3 w = Some c -> unset (S3_BUCKET_NAME w) = false ->
  S3.list_fault c = None ->
  load_history w limit b
  = (b, Ok (flat_map (readable w c b)
              (firstn limit
                 (sorted_desc
                    (map S3.summarise
                       (firstn S3.MaxKeys
                          (S3.under "interactions/" b))))))).
Proof.
  intros Hs Hn Hl. unfold load_history. rewrite Hs, Hn.
  unfold try_except, bind at 1. unfold S3.list_objects_v2. rewrite Hl.
  destruct (firstn S3.MaxKeys (S3.under "interactions/" b)) as [|o page].
  - cbn. now destruct limit.
  - now rewrite load_each_flat.
Qed.

Lemma length_flat_map_readable (w : World) c b l :
  List.length (flat_map (readable w c b) l) <= List.length l.
Proof.
  induction l as [|s l IH]; [reflexivity|].
  cbn [flat_map]. rewrite length_app. cbn [List.length].
  assert (List.length (readable w c b s) <= 1).
  { unfold readable.
    destruct (S3.get_fault c (S3.Key s)); [cbn; lia|].
    destruct (S3.lookup (S3.Key s) b); [|cbn; lia].
    destruct (json_loads w (S3.obj_body s0)); cbn; lia. }
  lia.
Qed.

Lemma load_history_total (w : World) limit b :
  exists h, load_history w limit b = (b, Ok h) /\ List.length h <= limit.
Proof.
  destruct (s3 w) as [c|] eqn:Hs.
  2:{ exists []. unfold load_history. rewrite Hs. split; [reflexivity|cbn; lia]. }
  destruct (unset (S3_BUCKET_NAME w)) eqn:Hn.
  { exists []. unfold load_history. rewrite Hs, Hn.
    split; [reflexivity|cbn; lia]. }
  destruct (S3.list_fault c) as [e|] eqn:Hl.
  { exists []. unfold load_history. rewrite Hs, Hn.
    unfold try_except, bind, S3.list_objects_v2, ret. rewrite Hl.
    split; [reflexivity|cbn; lia]. }
  eexists. split; [exact (load_history_listed w c limit b Hs Hn Hl)|].
  etransitivity; [apply length_flat_map_readable|]. apply firstn_le_length.
Qed.

(** X5: [load_history] never raises and never changes the bucket, whatever
    fails underneath, and it returns at most [limit] entries. *)
Theorem load_history_bounded_read_only
    (w : World) (limit : nat) (b : S3.bucket) :
  exists h, load_history w limit b = (b, Ok h) /\ List.length h <= limit.
Proof. apply load_history_total. Qed.

(** *** Which objects the history shows *)

Lemma insert_desc_perm x l : Permutation (x :: l) (insert_desc x l).
Proof.
  induction l as [|y l IH]; cbn; [reflexivity|].
  destruct (S3.LastModified x <? S3.LastModified y)%Z; [|reflexivity].
  rewrite perm_swap. now apply perm_skip.
Qed.

Lemma sorted_desc_perm l : Permutation l (sorted_desc l).
Proof.
  induction l as [|x l IH]; cbn; [reflexivity|].
  fold (sorted_desc l). rewrite <- insert_desc_perm. now apply perm_skip.
Qed.

Lemma insert_desc_sorted x l :
  StronglySorted not_newer l -> StronglySorted not_newer (insert_desc x l).
Proof.
  induction 1 as [|y l Hl IH Hy]; cbn.
  - repeat constructor.
  - destruct (S3.LastModified x <? S3.LastModified y)%Z eqn:E.
    + constructor; [exact IH|].
      apply Z.ltb_lt in E.
      rewrite Forall_forall in *. intros z Hz.
      apply in_insert_desc in Hz as [->|Hz];
        [unfold not_newer; lia | now apply Hy].
    + apply Z.ltb_ge in E. constructor; [now constructor|].
      constructor; [exact E|].
      rewrite Forall_forall in *. intros z Hz.
      specialize (Hy z Hz). unfold not_newer in *. lia.
Qed.

Lemma sorted_desc_sorted l : StronglySorted not_newer (sorted_desc l).
Proof.
  induction l as [|x l IH]; cbn; [constructor|].
  now apply insert_desc_sorted.
Qed.

Lemma sorted_app_split (l1 l2 : list S3.summary) :
  StronglySorted not_newer (l1 ++ l2) ->
  StronglySorted not_newer l1
  /\ forall x y, In x l1 -> In y l2 -> not_newer x y.
Proof.
  induction l1 as [|a l1 IH]; cbn; intros H.
  - split; [constructor | contradiction].
  - inversion H as [|? ? Hs Hall]; subst.
    destruct (IH Hs) as [Hs1 Hcross]. split.
    + constructor; [exact Hs1|].
      rewrite Forall_forall in *. intros z Hz. apply Hall.
      apply in_or_app. now left.
    + intros x y [<-|Hx] Hy.
      * rewrite Forall_forall in Hall. apply Hall.
        apply in_or_app. now right.
      * now apply Hcross.
Qed.

(** X6: with the listing available, [load_history(limit)] reads the
    [limit] most recently stamped objects of the listed page, newest first:
    the listing splits into the objects read and the rest, no object of the
    rest has a later stamp than an object read, the objects read are in
    descending order of stamp, and the history is their decoded bodies in
    that order, an object that cannot be fetched or decoded being skipped. *)
Theorem load_history_reads_newest_first
    (w : World) (c : S3.client) (limit : nat) (b : S3.bucket) :
  s3 w = Some c -> unset (S3_BUCKET_NAME w) = false ->
  S3.list_fault c = None ->
  exists chosen rest,
    Permutation
      (map S3.summarise (firstn S3.MaxKeys (S3.under "interactions/" b)))
      (chosen ++ rest)
    /\ List.length chosen
       = Nat.min limit
           (List.length (firstn S3.MaxKeys (S3.under "interactions/" b)))
    /\ StronglySorted not_newer chosen
    /\ (forall x y, In x chosen -> In y rest -> not_newer x y)
    /\ load_history w limit b
       = (b, Ok (flat_map (readable w c b) chosen)).
Proof.
  intros Hs Hn Hl.
  set (listed := map S3.summarise
                   (firstn S3.MaxKeys (S3.under "interactions/" b))).
  exists (firstn limit (sorted_desc listed)),
         (skipn limit (sorted_desc listed)).
  pose proof (sorted_desc_sorted listed) as Hsorted.
  rewrite <- (firstn_skipn limit (sorted_desc listed)) in Hsorted.
  apply sorted_app_split in Hsorted as [Hs1 Hcross].
  repeat split.
  - rewrite firstn_skipn. apply sorted_desc_perm.
  - rewrite length_firstn.
    rewrite <- (Permutation_length (sorted_desc_perm listed)).
    unfold listed. now rewrite length_map.
  - exact Hs1.
  - exact Hcross.
  - now apply load_history_listed.
Qed.

Lemma load_history_reads_newest_first_witness :
  exists chosen rest,
    Permutation
      (map S3.summarise
         (firstn S3.MaxKeys
            (S3.under "interactions/"
               [Demo.earlier 0; Demo.earlier 1; Demo.earlier 2])))
      (chosen ++ rest)
    /\ List.length chosen = 2
    /\ load_history (Demo.world (Some (Demo.client Demo.half_past_nine))) 2
         [Demo.earlier 0; Demo.earlier 1; Demo.earlier 2]
       = ([Demo.earlier 0; Demo.earlier 1; Demo.earlier 2],
          Ok (flat_map
                (readable (Demo.world (Some (Demo.client Demo.half_past_nine)))
                   (Demo.client Demo.half_past_nine)
                   [Demo.earlier 0; Demo.earlier 1; Demo.earlier 2])
                chosen)).
Proof.
  destruct (load_history_reads_newest_first
              (Demo.world (Some (Demo.client Demo.half_past_nine)))
              (Demo.client Demo.half_past_nine) 2
              [Demo.earlier 0; Demo.earlier 1; Demo.earlier 2]
              eq_refl eq_refl eq_refl)
    as (chosen & rest & Hp & Hlen & _ & _ & H).
  exists chosen, rest. repeat split; [exact Hp | exact Hlen | exact H].
Defined.

Example history_of_three :
  snd (load_history (Demo.world (Some (Demo.client Demo.half_past_nine))) 2
         [Demo.earlier 0; Demo.earlier 1; Demo.earlier 2])
  = Ok [Demo.interaction "20240101_000002" "time" "The time is 00:00";
        Demo.interaction "20240101_000001" "time" "The time is 00:00"].
Proof. reflexivity. Qed.

(** *** Writing *)

Lemma save_to_s3_written (w : World) c user_input response b :
  s3 w = Some c -> unset (S3_BUCKET_NAME w) = false ->
  S3.put_fault c ("interactions/" ++ now_strftime w "%Y%m%d_%H%M%S" ++ ".json")
  = None ->
  save_to_s3 w user_input response b
  = (S3.insert_by_key
       {| S3.obj_key :=
            "interactions/" ++ now_strftime w "%Y%m%d_%H%M%S" ++ ".json";
          S3.obj_body :=
            json_dumps w
              (PyDict [("timestamp", PyStr (now_strftime w "%Y%m%d_%H%M%S"));
                       ("input", PyStr user_input);
                       ("response", PyStr response)]);
          S3.obj_last_modified := S3.server_time c |}
       (S3.remove_key
          ("interactions/" ++ now_strftime w "%Y%m%d_%H%M%S" ++ ".json") b),
     Ok true).
Proof.
  intros Hs Hn Hp. unfold save_to_s3. rewrite Hs, Hn.
  unfold try_except, bind, S3.put_object, ret. now rewrite Hp.
Qed.

Lemma save_to_s3_total (w : World) user_input response b :
  exists ok b', save_to_s3 w user_input response b = (b', Ok ok).
Proof.
  unfold save_to_s3. destruct (s3 w) as [c|]; [|unfold ret; eauto].
  destruct (unset (S3_BUCKET_NAME w)); [unfold ret; eauto|].
  unfold try_except, bind, S3.put_object, ret.
  destruct (S3.put_fault c _); eauto.
Qed.

Lemma save_to_s3_disabled (w : World) user_input response b :
  s3 w = None \/ unset (S3_BUCKET_NAME w) = true ->
  save_to_s3 w user_input response b = (b, Ok false).
Proof.
  intros [H|H]; unfold save_to_s3; rewrite H; [reflexivity|].
  now destruct (s3 w).
Qed.

(** X7: the key of an interaction is the clock reading to the second, so a
    second interaction recorded while the clock shows the same second
    overwrites the first: the bucket is left exactly as if the first had
    never been recorded. *)
Theorem same_second_write_replaces
    (w : World) (c : S3.client) (u1 r1 u2 r2 : string) (b : S3.bucket) :
  s3 w = Some c -> unset (S3_BUCKET_NAME w) = false ->
  S3.put_fault c ("interactions/" ++ now_strftime w "%Y%m%d_%H%M%S" ++ ".json")
  = None ->
  exists b1,
    save_to_s3 w u1 r1 b = (b1, Ok true)
    /\ save_to_s3 w u2 r2 b1 = save_to_s3 w u2 r2 b.
Proof.
  intros Hs Hn Hp. eexists.
  split; [exact (save_to_s3_written w c u1 r1 b Hs Hn Hp)|].
  rewrite !(save_to_s3_written w c) by assumption.
  do 2 f_equal. unfold S3.remove_key at 1.
  rewrite filter_insert_out by (cbn; now rewrite String.eqb_refl).
  apply filter_idem.
Qed.

Lemma same_second_write_replaces_witness :
  exists b1,
    save_to_s3 (Demo.world (Some (Demo.client Demo.half_past_nine)))
      "time" "The time is 09:30" Demo.small_bucket = (b1, Ok true)
    /\ save_to_s3 (Demo.world (Some (Demo.client Demo.half_past_nine)))
         "date" "Today is January 01, 2024" b1
       = save_to_s3 (Demo.world (Some (Demo.client Demo.half_past_nine)))
           "date" "Today is January 01, 2024" Demo.small_bucket.
Proof.
  apply (same_second_write_replaces
           (Demo.world (Some (Demo.client Demo.half_past_nine)))
           (Demo.client Demo.half_past_nine)
           "time" "The time is 09:30" "date" "Today is January 01, 2024"
           Demo.small_bucket); reflexivity.
Defined.

(** ** Start-up *)


(** ** Speech output and the handlers *)

Lemma process_command_total (w : World) v tr :
  exists tr' r, process_command w v tr = (tr', Ok r).
Proof.
  unfold process_command.
  repeat match goal with
         | |- context [if ?b then _ else _] => destruct b
         end;
    try (unfold ret; eauto; fail).
  - destruct (get_weather_invoked w
                (or_else (strip (replace "in" "" (replace "weather" ""
                    (strip (lower (str_value v)))))) "New York") tr); eauto.
  - destruct (search_wikipedia_invoked w
                (strip (replace "wiki" "" (replace "wikipedia" ""
                    (strip (lower (str_value v)))))) tr); eauto.
  - destruct (play_spotify_invoked w
                (strip (replace "music" "" (replace "song" ""
                    (replace "play" "" (strip (lower (str_value v)))))))
                tr); eauto.
  - destruct (search_google_invoked w
                (strip (replace "google" "" (replace "search" ""
                    (strip (lower (str_value v)))))) tr); eauto.
  - destruct (search_google_invoked w (strip (lower (str_value v))) tr);
      eauto.
Qed.

Lemma speak_appends (w : World) engine text u :
  exists more,
    speak w engine text u = ((u ++ more)%list, Ok tt)
    /\ (engine = None ->
        more = [Warning "Text-to-speech engine not available"])
    /\ (forall e, engine = Some e ->
        (forall t, In (Say t) more -> t = text /\ say e text = Ok tt)
        /\ (In RunAndWait more <->
            say e text = Ok tt /\ runAndWait e = Ok tt)).
Proof.
  unfold speak. destruct engine as [e|].
  - unfold try_except, bind, lift, emit.
    destruct (say e text) as [[]|x] eqn:Hsay.
    + destruct (runAndWait e) as [[]|y] eqn:Hrun.
      * exists [Say text; RunAndWait]. rewrite <- app_assoc.
        split; [reflexivity|]. split; [discriminate|].
        intros e' He. injection He as <-. rewrite Hsay, Hrun. split.
        -- intros t [H|[H|[]]]; [injection H as <-; auto | discriminate].
        -- split; [auto | intros _; right; now left].
      * exists [Say text; Error ("Error in text-to-speech: " ++ str_exn w y)].
        rewrite <- app_assoc.
        split; [reflexivity|]. split; [discriminate|].
        intros e' He. injection He as <-. rewrite Hsay, Hrun. split.
        -- intros t [H|[H|[]]]; [injection H as <-; auto | discriminate].
        -- split; [intros [H|[H|[]]]; discriminate | intros [_ H]; discriminate].
    + exists [Error ("Error in text-to-speech: " ++ str_exn w x)].
      split; [reflexivity|]. split; [discriminate|].
      intros e' He. injection He as <-. rewrite Hsay. split.
      * intros t [H|[]]. discriminate.
      * split; [intros [H|[]]; discriminate | intros [H _]; discriminate].
  - exists [Warning "Text-to-speech engine not available"].
    split; [reflexivity|]. split; [reflexivity|]. discriminate.
Qed.

(** X9: [speak] never raises and only adds to the page: without an engine
    it shows the warning and says nothing; with one, the only text it can
    say is the text given, and playback completes exactly when both
    [say] and [runAndWait] return. *)
Theorem speak_never_raises
    (w : World) (engine : option tts_engine) (text : string)
    (u : list ui_event) :
  exists more,
    speak w engine text u = ((u ++ more)%list, Ok tt)
    /\ (engine = None ->
        more = [Warning "Text-to-speech engine not available"])
    /\ (forall e, engine = Some e ->
        (forall t, In (Say t) more -> t = text /\ say e text = Ok tt)
        /\ (In RunAndWait more <->
            say e text = Ok tt /\ runAndWait e = Ok tt)).
Proof. apply speak_appends. Qed.

Lemma save_to_s3_outcome (w : World) user_input response b :
  save_to_s3 w user_input response b = (b, Ok false)
  \/ exists c,
       s3 w = Some c /\ unset (S3_BUCKET_NAME w) = false
       /\ S3.put_fault c
            ("interactions/" ++ now_strftime w "%Y%m%d_%H%M%S" ++ ".json")
          = None
       /\ save_to_s3 w user_input response b
          = (fst (save_to_s3 w user_input response b), Ok true).
Proof.
  destruct (s3 w) as [c|] eqn:Hs;
    [|left; apply save_to_s3_disabled; now left].
  destruct (unset (S3_BUCKET_NAME w)) eqn:Hn;
    [left; apply save_to_s3_disabled; now right|].
  destruct (S3.put_fault c
              ("interactions/" ++ now_strftime w "%Y%m%d_%H%M%S" ++ ".json"))
    as [e|] eqn:Hp.
  - left. unfold save_to_s3. rewrite Hs, Hn.
    unfold try_except, bind, S3.put_object, ret. now rewrite Hp.
  - right. exists c. repeat split; auto.
    now rewrite (save_to_s3_written w c) by assumption.
Qed.

(** X10: one run of the handler behind the voice button and the text box
    never raises.  On an empty or missing input it does nothing at all.
    Without storage it leaves the bucket and the shown history untouched
    and asks for no rerun.  When the write succeeds, the object stored
    under the key of this second holds the input exactly as given (not
    normalised) with the very response that was displayed, the history is
    reloaded from the bucket as written, and a rerun is requested. *)
Theorem handle_input_effects
    (w : World) (engine : option tts_engine) (v : pyval) (s : session) :
  let timestamp := now_strftime w "%Y%m%d_%H%M%S" in
  let key := "interactions/" ++ timestamp ++ ".json" in
  exists s',
    handle_input w engine v s = (s', Ok tt)
    /\ (truthy v = false -> s' = s)
    /\ (s3 w = None \/ unset (S3_BUCKET_NAME w) = true ->
        store s' = store s /\ history s' = history s /\ rerun s' = rerun s)
    /\ (forall c,
          truthy v = true -> s3 w = Some c ->
          unset (S3_BUCKET_NAME w) = false -> S3.put_fault c key = None ->
          exists response,
            process_command w v (calls s) = (calls s', Ok response)
            /\ In (Success ("Assistant: " ++ response)) (ui s')
            /\ S3.lookup key (store s')
               = Some {| S3.obj_key := key;
                         S3.obj_body :=
                           json_dumps w
                             (PyDict [("timestamp", PyStr timestamp);
                                      ("input", PyStr (str_value v));
                                      ("response", PyStr response)]);
                         S3.obj_last_modified := S3.server_time c |}
            /\ load_history w 5 (store s') = (store s', Ok (history s'))
            /\ rerun s' = true).
Proof.
  intros timestamp key. unfold handle_input.
  destruct (truthy v) eqn:Ht.
  2:{ exists s. repeat split; auto. intros; discriminate. }
  destruct (process_command_total w v (calls s)) as (tr' & r & Hpc).
  destruct (speak_appends w engine r
              (ui s ++ [Success ("Assistant: " ++ r)])%list)
    as (more & Hsp & _).
  unfold bind at 1. unfold on_calls at 1. rewrite Hpc.
  unfold bind at 1. unfold on_ui at 1, emit. cbn [ui calls store history rerun].
  unfold bind at 1. unfold on_ui at 1. cbn [ui calls store history rerun].
  rewrite Hsp.
  unfold bind at 1. unfold on_store at 1. cbn [ui calls store history rerun].
  destruct (save_to_s3_outcome w (str_value v) r (store s))
    as [Hsave|(c & Hs & Hn & Hp & Hsave)].
  - rewrite Hsave. eexists. split; [reflexivity|].
    cbn [ui calls store history rerun].
    split; [intros; discriminate|]. split; [auto|].
    intros c _ Hs Hn Hp.
    rewrite (save_to_s3_written w c) in Hsave by assumption.
    discriminate.
  - rewrite Hsave.
    set (b' := fst (save_to_s3 w (str_value v) r (store s))) in *.
    destruct (load_history_total w 5 b') as (h & Hload & _).
    unfold bind at 1. unfold on_store at 1.
    cbn [ui calls store history rerun]. rewrite Hload.
    unfold bind, set_history, st_rerun. cbn [ui calls store history rerun].
    eexists. split; [reflexivity|].
    cbn [ui calls store history rerun].
    split; [intros; discriminate|].
    split; [intros [Hx|Hx]; congruence|].
    intros c' _ Hs' _ _. assert (c' = c) by congruence. subst c'.
    exists r. split; [reflexivity|]. split.
    { apply in_or_app. left. apply in_or_app. right. now left. }
    split; [|split; [exact Hload | reflexivity]].
    unfold b'. rewrite (save_to_s3_written w c) by assumption.
    cbn [fst]. apply lookup_insert; [reflexivity|].
    intros x Hx. now apply remove_key_spec in Hx.
Qed.

Lemma handle_input_effects_witness :
  exists s',
    handle_input (Demo.world (Some (Demo.client Demo.half_past_nine)))
      (Some working_engine) (PyStr "  What TIME is it? ")
      (fresh_session Demo.small_bucket) = (s', Ok tt)
    /\ S3.lookup "interactions/20240101_093000.json" (store s')
       = Some {| S3.obj_key := "interactions/20240101_093000.json";
                 S3.obj_body :=
                   Demo.dumps
                     (Demo.interaction "20240101_093000"
                        "  What TIME is it? " "The time is 09:30");
                 S3.obj_last_modified := Demo.half_past_nine |}
    /\ rerun s' = true.
Proof.
  destruct (handle_input_effects
              (Demo.world (Some (Demo.client Demo.half_past_nine)))
              (Some working_engine) (PyStr "  What TIME is it? ")
              (fresh_session Demo.small_bucket))
    as (s' & Hrun & _ & _ & Hok).
  exists s'. split; [exact Hrun|].
  destruct (Hok (Demo.client Demo.half_past_nine)
              eq_refl eq_refl eq_refl eq_refl)
    as (response & Hpc & _ & Hlook & _ & Hre).
  assert (E : response = "The time is 09:30").
  { vm_compute in Hpc. now injection Hpc as _ E. }
  subst response. split; [exact Hlook | exact Hre].
Defined.

(** *** The quick actions *)

Lemma contains_app_r k a b :
  contains k b = true -> contains k (a ++ b) = true.
Proof.
  intros H. induction a as [|c a IH]; [exact H|].
  cbn [append contains]. rewrite IH. apply orb_true_r.
Qed.

Lemma startswith_shorter a b s :
  startswith (a ++ b) s = true -> startswith a s = true.
Proof.
  revert s. induction a as [|c a IH]; intros s H; [reflexivity|].
  destruct s as [|d s]; [discriminate|]. cbn in *.
  apply andb_true_iff in H as [Hc Ha]. now rewrite Hc, (IH _ Ha).
Qed.

Lemma contains_shorter a b s :
  contains (a ++ b) s = true -> contains a s = true.
Proof.
  induction s as [|c s IH]; intros H.
  - cbn in *. rewrite orb_false_r in *. now apply startswith_shorter in H.
  - cbn [contains] in *. apply orb_true_iff in H as [H|H].
    + now rewrite (startswith_shorter _ _ _ H).
    + rewrite (IH H). apply orb_true_r.
Qed.

Lemma check_weather_runs (w : World) engine city s tr' r :
  process_command w (PyStr ("weather " ++ city)) (calls s) = (tr', Ok r) ->
  exists more,
    check_weather w engine city s
    = ({| ui := (ui s ++ Success r :: more)%list; calls := tr';
          store := store s; history := history s; rerun := rerun s |},
       Ok tt).
Proof.
  intros Hpc.
  destruct (speak_appends w engine r (ui s ++ [Success r])%list)
    as (more & Hsp & _).
  exists more. unfold check_weather.
  unfold bind at 1. unfold on_calls at 1. rewrite Hpc.
  unfold bind, on_ui, emit. cbn [ui calls store history rerun].
  rewrite Hsp. now rewrite <- app_assoc.
Qed.

Lemma web_search_runs (w : World) engine search s tr' r :
  process_command w (PyStr ("search " ++ search)) (calls s) = (tr', Ok r) ->
  exists more,
    web_search w engine search s
    = ({| ui := (ui s ++ Success r :: more)%list; calls := tr';
          store := store s; history := history s; rerun := rerun s |},
       Ok tt).
Proof.
  intros Hpc.
  destruct (speak_appends w engine r (ui s ++ [Success r])%list)
    as (more & Hsp & _).
  exists more. unfold web_search.
  unfold bind at 1. unfold on_calls at 1. rewrite Hpc.
  unfold bind, on_ui, emit. cbn [ui calls store history rerun].
  rewrite Hsp. now rewrite <- app_assoc.
Qed.

(** X11: the "Check Weather" action sends "weather <city>" through the
    router, so a city whose name contains "hello", "hi" or "hey" in any
    letter case (Chicago, Delhi, Washington) never reaches the weather
    adapter: the page shows the greeting, no adapter is invoked and nothing
    is stored. *)
Theorem check_weather_greets_some_cities
    (w : World) (engine : option tts_engine) (city : string) (s : session) :
  contains "hello" (lower city) = true \/ contains "hi" (lower city) = true
  \/ contains "hey" (lower city) = true ->
  exists more,
    check_weather w engine city s
    = ({| ui := (ui s ++ Success "Hello! How can I help?" :: more)%list;
          calls := calls s; store := store s; history := history s;
          rerun := rerun s |},
       Ok tt).
Proof.
  intros H. apply check_weather_runs.
  rewrite process_command_greets; [reflexivity|].
  rewrite lower_app.
  destruct H as [H|[H|H]]; [left | right; left | right; right];
    now apply contains_app_r.
Qed.

Lemma check_weather_greets_some_cities_witness :
  exists more,
    check_weather (Demo.connected (Ok Demo.clear_sky)) (Some working_engine)
      "Chicago" (fresh_session [])
    = ({| ui := Success "Hello! How can I help?" :: more;
          calls := []; store := []; history := []; rerun := false |},
       Ok tt).
Proof.
  apply (check_weather_greets_some_cities
           (Demo.connected (Ok Demo.clear_sky)) (Some working_engine)
           "Chicago" (fresh_session [])).
  right. left. reflexivity.
Defined.

Lemma search_prefix_normalised q :
  let c := strip (lower ("search " ++ q)) in
  startswith "search" c = true
  /\ is_empty c = false
  /\ forall k,
       first_char_nonspace k = true -> last_char_nonspace k = true ->
       contains k ("search " ++ lower q) = contains k (lower q) ->
       contains k c = contains k (lower q).
Proof.
  intros c. subst c. rewrite lower_app.
  change (lower "search ") with "search ".
  assert (Hs : startswith "search" (strip ("search " ++ lower q)) = true).
  { unfold strip. rewrite lstrip_nonspace by reflexivity.
    now apply startswith_rstrip. }
  repeat split.
  - exact Hs.
  - destruct (strip ("search " ++ lower q)); [discriminate | reflexivity].
  - intros k Hf Hl Hk. now rewrite contains_strip.
Qed.

(** X12: the "Web Search" action sends "search <text>" through the router;
    the word "search" alone selects no rule, so for a text without any of
    the keywords hello, hi, hey, time, date, weather, wiki, play and google
    the default rule hands Google the whole normalised command, the word
    "search" included, and nothing is stored. *)
Theorem web_search_keeps_the_word_search
    (w : World) (engine : option tts_engine) (q : string) (s : session) :
  contains "hello" (lower q) = false -> contains "hi" (lower q) = false ->
  contains "hey" (lower q) = false -> contains "time" (lower q) = false ->
  contains "date" (lower q) = false -> contains "weather" (lower q) = false ->
  contains "wiki" (lower q) = false -> contains "play" (lower q) = false ->
  contains "google" (lower q) = false ->
  exists arg r more,
    web_search w engine q s
    = ({| ui := (ui s ++ Success r :: more)%list;
          calls := (calls s ++ [(Google, arg)])%list;
          store := store s; history := history s; rerun := rerun s |},
       Ok tt)
    /\ arg = strip (lower ("search " ++ q))
    /\ startswith "search" arg = true.
Proof.
  intros Hhello Hhi Hhey Htime Hdate Hweather Hwiki Hplay Hgoogle.
  destruct (search_prefix_normalised q) as (Hstart & Hne & Hk).
  set (c := strip (lower ("search " ++ q))) in *.
  assert (Hwp : contains "wikipedia" c = false).
  { destruct (contains "wikipedia" c) eqn:E; [|reflexivity].
    apply (contains_shorter "wiki" "pedia") in E.
    rewrite (Hk "wiki" eq_refl eq_refl eq_refl) in E. congruence. }
  rewrite <- (Hk "hello" eq_refl eq_refl eq_refl) in Hhello.
  rewrite <- (Hk "hi" eq_refl eq_refl eq_refl) in Hhi.
  rewrite <- (Hk "hey" eq_refl eq_refl eq_refl) in Hhey.
  rewrite <- (Hk "time" eq_refl eq_refl eq_refl) in Htime.
  rewrite <- (Hk "date" eq_refl eq_refl eq_refl) in Hdate.
  rewrite <- (Hk "weather" eq_refl eq_refl eq_refl) in Hweather.
  rewrite <- (Hk "wiki" eq_refl eq_refl eq_refl) in Hwiki.
  rewrite <- (Hk "play" eq_refl eq_refl eq_refl) in Hplay.
  rewrite <- (Hk "google" eq_refl eq_refl eq_refl) in Hgoogle.
  assert (Hpc : process_command w (PyStr ("search " ++ q))
                = search_google w c).
  { unfold process_command. cbn [truthy isinstance_str str_value].
    change (negb (negb (is_empty ("search " ++ q))) || negb true) with false.
    cbv iota. fold c. cbn [existsb].
    now rewrite Hne, Hhello, Hhi, Hhey, Htime, Hdate, Hweather, Hwp, Hwiki,
      Hplay, Hgoogle, andb_false_r. }
  destruct (search_google_invoked w c (calls s)) as [r Hr].
  destruct (web_search_runs w engine q s _ r
              (eq_trans (f_equal (fun f => f (calls s)) Hpc) Hr))
    as [more Hrun].
  exists c, r, more. repeat split; auto.
Qed.

Lemma web_search_keeps_the_word_search_witness :
  exists r more,
    web_search (Demo.world None) None "Rocq Prover " (fresh_session [])
    = ({| ui := Success r :: more;
          calls := [(Google, "search rocq prover")];
          store := []; history := []; rerun := false |},
       Ok tt).
Proof.
  destruct (web_search_keeps_the_word_search (Demo.world None) None
              "Rocq Prover " (fresh_session [])
              eq_refl eq_refl eq_refl eq_refl eq_refl eq_refl eq_refl
              eq_refl eq_refl)
    as (arg & r & more & Hrun & Harg & _).
  exists r, more. rewrite Hrun. subst arg. reflexivity.
Defined.

(** ** The title argument of the music rule *)




